(** * graphiti-patch: the patched [zep_graphiti] module

    A shallow embedding of [docker/graphiti-patch.py]: the client factory
    [_create_configured_client], the process-wide singleton accessor
    [_get_shared_client] with the two FastAPI entry points built on it, and
    the delegate methods of [ZepGraphiti].

    The wrapped library ([graphiti_core]) is not part of the repository.  Its
    constructors and its node and edge persistence calls are taken as
    parameters: an interface ([GraphitiCore]) for the persistence calls, a
    function [Graphiti_init] for the client a constructor call returns, and
    functions that say when a constructor raises.  Python objects that the
    module shares by reference live in an explicit heap. *)

From Stdlib Require Import ZArith Lia.
From stdpp Require Import base list strings sorting.

Open Scope string_scope.

(** ** Settings and client objects *)

(** [graph_service.config.Settings], the fields the module reads.  A field
    that the code tests against [None] is an [option]. *)
Record Settings := mkSettings {
  neo4j_uri : string;
  neo4j_user : string;
  neo4j_password : string;
  openai_base_url : option string;
  openai_api_key : option string;
  model_name : option string;
  embedding_model_name : option string
}.

(** [client.llm_client.config]. *)
Record LLMConfig := mkLLMConfig {
  base_url : option string;
  api_key : option string;
  small_model : option string
}.

(** [client.llm_client]. *)
Record LLMClient := mkLLMClient {
  model : option string;
  config : LLMConfig
}.

(** [OpenAIEmbedderConfig(api_key=..., base_url=..., embedding_model=...)]. *)
Record OpenAIEmbedderConfig := mkOpenAIEmbedderConfig {
  embedder_api_key : option string;
  embedder_base_url : option string;
  embedding_model : string
}.

(** [OpenAIEmbedder(config=...)]. *)
Record OpenAIEmbedder := mkOpenAIEmbedder {
  embedder_config : OpenAIEmbedderConfig
}.

(** [client.clients], the [GraphitiClients] bundle built by the library's
    constructor: the one field of it that the module touches. *)
Record GraphitiClients := mkGraphitiClients {
  clients_embedder : OpenAIEmbedder
}.

(** A [ZepGraphiti] instance: the connection it was opened with and the
    attributes the module reads or writes. *)
Record ZepGraphiti := mkZepGraphiti {
  uri : string;
  user : string;
  password : string;
  llm_client : LLMClient;
  embedder : OpenAIEmbedder;
  clients : GraphitiClients
}.

(** Python's [x or default] on an optional string: [None] and the empty
    string are both falsy. *)
Definition or_default (x : option string) (default : string) : string :=
  match x with
  | Some s => if decide (s = EmptyString) then default else s
  | None => default
  end.

(** Attribute assignments of [_create_configured_client], one per line of
    the source. *)
Definition set_llm_base_url (v : string) (c : ZepGraphiti) : ZepGraphiti :=
  let l := llm_client c in
  let g := config l in
  mkZepGraphiti (uri c) (user c) (password c)
    (mkLLMClient (model l) (mkLLMConfig (Some v) (api_key g) (small_model g)))
    (embedder c) (clients c).

Definition set_llm_api_key (v : string) (c : ZepGraphiti) : ZepGraphiti :=
  let l := llm_client c in
  let g := config l in
  mkZepGraphiti (uri c) (user c) (password c)
    (mkLLMClient (model l) (mkLLMConfig (base_url g) (Some v) (small_model g)))
    (embedder c) (clients c).

Definition set_llm_model (v : string) (c : ZepGraphiti) : ZepGraphiti :=
  let l := llm_client c in
  let g := config l in
  mkZepGraphiti (uri c) (user c) (password c)
    (mkLLMClient (Some v) (mkLLMConfig (base_url g) (api_key g) (Some v)))
    (embedder c) (clients c).

Definition set_embedder (e : OpenAIEmbedder) (c : ZepGraphiti) : ZepGraphiti :=
  mkZepGraphiti (uri c) (user c) (password c) (llm_client c) e
    (mkGraphitiClients e).

(** [if v is not None: f(v)]. *)
Definition if_not_None {A S : Type} (v : option A) (f : A -> S -> S) (s : S) : S :=
  match v with
  | Some a => f a s
  | None => s
  end.

Section Factory.

(** The wrapped library's constructor, [Graphiti(uri, user, password,
    llm_client)], as reached through [ZepGraphiti.__init__]. *)
Variable Graphiti_init :
  string -> string -> string -> option LLMClient -> ZepGraphiti.

(** [ZepGraphiti(uri=..., user=..., password=...)]: [llm_client] keeps its
    default [None]. *)
Definition ZepGraphiti_new (uri user password : string) : ZepGraphiti :=
  Graphiti_init uri user password None.

Definition _create_configured_client (settings : Settings) : ZepGraphiti :=
  let client :=
    ZepGraphiti_new (neo4j_uri settings) (neo4j_user settings)
      (neo4j_password settings) in
  let client := if_not_None (openai_base_url settings) set_llm_base_url client in
  let client := if_not_None (openai_api_key settings) set_llm_api_key client in
  let client := if_not_None (model_name settings) set_llm_model client in
  let client :=
    match embedding_model_name settings with
    | Some name =>
        let embedder_config :=
          mkOpenAIEmbedderConfig
            (Some (or_default (openai_api_key settings) "ollama"))
            (openai_base_url settings)
            name in
        let embedder := mkOpenAIEmbedder embedder_config in
        set_embedder embedder client
    | None => client
    end in
  client.

(** The client as it is after the chat-client assignments of the factory
    and before the embedder is looked at: constructed, with the chat client
    configured. *)
Definition chat_configured_client (settings : Settings) : ZepGraphiti :=
  let client :=
    ZepGraphiti_new (neo4j_uri settings) (neo4j_user settings)
      (neo4j_password settings) in
  let client := if_not_None (openai_base_url settings) set_llm_base_url client in
  let client := if_not_None (openai_api_key settings) set_llm_api_key client in
  if_not_None (model_name settings) set_llm_model client.

(** The configuration the factory hands to [OpenAIEmbedder]. *)
Definition embedder_config_of (settings : Settings) (name : string)
  : OpenAIEmbedderConfig :=
  mkOpenAIEmbedderConfig
    (Some (or_default (openai_api_key settings) "ollama"))
    (openai_base_url settings)
    name.

End Factory.

(** ** The process-wide singleton *)

(** A reference to a [ZepGraphiti] object: its index in the heap. *)
Definition loc := nat.

(** An exception raised outside the delegate methods: by [get_settings],
    by a constructor of the library, or by
    [build_indices_and_constraints]. *)
Inductive Raised := raised (what : string).

(** What the module does that is visible outside its own state: calls of
    [get_settings], records sent to the logger, and the library call of
    [initialize_graphiti]. *)
Inductive Effect :=
| get_settings_call
| logger_info (fmt : string) (model_arg embedding_arg : option string)
| build_indices_and_constraints (client : loc).

#[global] Instance Effect_eq_dec : EqDecision Effect.
Proof. solve_decision. Defined.

(** The state of one Python process as far as this module is concerned:
    the module global [_shared_client], the client objects allocated so far,
    what [get_settings] does in the environment as it is now (it returns
    settings or it raises), and the effects so far. *)
Record Process := mkProcess {
  _shared_client : option loc;
  heap : list ZepGraphiti;
  environ : Raised + Settings;
  effects : list Effect
}.

Definition emit (e : Effect) (p : Process) : Process :=
  mkProcess (_shared_client p) (heap p) (environ p) (effects p ++ [e]).

(** [graph_service.config.get_settings()]: the settings derived from the
    environment as it is at the time of the call, or the exception raised
    when they cannot be derived. *)
Definition get_settings (p : Process) : (Raised + Settings) * Process :=
  (environ p, emit get_settings_call p).

(** Allocation of a fresh object. *)
Definition alloc (c : ZepGraphiti) (p : Process) : loc * Process :=
  (List.length (heap p),
   mkProcess (_shared_client p) (heap p ++ [c]) (environ p) (effects p)).

(** [_shared_client = v] under [global _shared_client]. *)
Definition set_shared_client (v : loc) (p : Process) : Process :=
  mkProcess (Some v) (heap p) (environ p) (effects p).

Section Singleton.

Variable Graphiti_init :
  string -> string -> string -> option LLMClient -> ZepGraphiti.

(** When the library's constructors raise: [Graphiti(uri, user, password)]
    for given arguments, [OpenAIEmbedder(config=...)] for a given
    configuration. *)
Variable Graphiti_raises : string -> string -> string -> option Raised.
Variable OpenAIEmbedder_raises : OpenAIEmbedderConfig -> option Raised.

(** A call of [_create_configured_client] in a process.  If the client
    constructor raises, nothing has been allocated.  If the embedder
    constructor raises, the client allocated before it, with its chat
    client configured, is dropped.  Otherwise the call returns a reference
    to the client that [_create_configured_client] describes. *)
Definition _create_configured_client_call (settings : Settings) (p : Process)
  : (Raised + loc) * Process :=
  match Graphiti_raises (neo4j_uri settings) (neo4j_user settings)
          (neo4j_password settings) with
  | Some e => (inl e, p)
  | None =>
      match embedding_model_name settings with
      | Some name =>
          match OpenAIEmbedder_raises (embedder_config_of settings name) with
          | Some e =>
              let '(_, p) :=
                alloc (chat_configured_client Graphiti_init settings) p in
              (inl e, p)
          | None =>
              let '(client, p) :=
                alloc (_create_configured_client Graphiti_init settings) p in
              (inr client, p)
          end
      | None =>
          let '(client, p) :=
            alloc (_create_configured_client Graphiti_init settings) p in
          (inr client, p)
      end
  end.

(** An exception in the [if] branch leaves the function before the
    assignment to [_shared_client], so the slot stays empty. *)
Definition _get_shared_client (p : Process) : (Raised + loc) * Process :=
  match _shared_client p with
  | None =>
      let '(got, p) := get_settings p in
      match got with
      | inl e => (inl e, p)
      | inr settings =>
          let '(made, p) := _create_configured_client_call settings p in
          match made with
          | inl e => (inl e, p)
          | inr client =>
              let p := set_shared_client client p in
              let p :=
                emit (logger_info
                        "Created shared Graphiti client (model=%s, embedding=%s)"
                        (model_name settings) (embedding_model_name settings)) p in
              (inr client, p)
          end
      end
  | Some client => (inr client, p)
  end.

(** The async generator [get_graphiti(settings)]: the values it yields,
    in order, or the exception it raises before yielding. *)
Definition get_graphiti (settings : Settings) (p : Process)
  : (Raised + list loc) * Process :=
  let '(got, p) := _get_shared_client p in
  (match got with inl e => inl e | inr client => inr [client] end, p).

(** [initialize_graphiti(settings)].  How the library call
    [client.build_indices_and_constraints()] ends is decided by the
    database and taken as [built]: [None] when it returns. *)
Definition initialize_graphiti (settings : Settings) (built : option Raised)
    (p : Process) : (Raised + unit) * Process :=
  let '(got, p) := _get_shared_client p in
  match got with
  | inl e => (inl e, p)
  | inr client =>
      (match built with Some e => inl e | None => inr tt end,
       emit (build_indices_and_constraints client) p)
  end.

(** What can happen to a process between two observations: a call of one
    of the module's three entry points, from a request handler or from
    the background worker, or a change of the environment from outside. *)
Inductive Op :=
| call_get_shared_client
| call_get_graphiti (settings : Settings)
| call_initialize_graphiti (settings : Settings) (built : option Raised)
| environ_changed (env : Raised + Settings).

Definition step (p : Process) (op : Op) : Process :=
  match op with
  | call_get_shared_client => (_get_shared_client p).2
  | call_get_graphiti s => (get_graphiti s p).2
  | call_initialize_graphiti s built => (initialize_graphiti s built p).2
  | environ_changed env =>
      mkProcess (_shared_client p) (heap p) env (effects p)
  end.

Definition run (ops : list Op) (p : Process) : Process :=
  fold_left step ops p.

(** How many times [get_settings] has been called. *)
Definition settings_reads (p : Process) : nat :=
  length (List.filter (fun e => bool_decide (e = get_settings_call)) (effects p)).

End Singleton.

(** A process that has just imported the module. *)
Definition fresh_process (env : Raised + Settings) : Process :=
  mkProcess None [] env [].

(** ** Errors *)

(** The classes of [graphiti_core.errors] the module names, and one class
    for every other error a library call may raise. *)
Inductive ErrorClass :=
| EdgeNotFoundError
| GroupsEdgesNotFoundError
| NodeNotFoundError
| OtherError.

#[global] Instance ErrorClass_eq_dec : EqDecision ErrorClass.
Proof. solve_decision. Defined.

(** An error raised by the library: its class and its [message]. *)
Record GraphitiError := mkGraphitiError {
  error_class : ErrorClass;
  message : string
}.

(** What a delegate method can raise: a library error as it is, or
    [HTTPException(status_code=..., detail=...) from cause]. *)
Inductive Exception :=
| Library (e : GraphitiError)
| HTTPException (status_code : Z) (detail : string) (cause : GraphitiError).

(** ** The wrapped library's persistence interface *)

(** A library call runs against the graph database behind [self.driver]
    (and the embedding service), whose state is [D]; it returns or raises. *)
Definition LibCall (D A : Type) : Type := D -> (GraphitiError + A) * D.

Class GraphitiCore := {
  Driver : Type;
  EntityEdge : Type;
  EntityNode : Type;
  EpisodicNode : Type;
  EntityEdge_get_by_uuid : string -> LibCall Driver EntityEdge;
  EntityEdge_get_by_group_ids : list string -> LibCall Driver (list EntityEdge);
  EntityEdge_delete : EntityEdge -> LibCall Driver unit;
  EntityNode_new : string -> string -> string -> string -> EntityNode;
  EntityNode_generate_name_embedding :
    EntityNode -> OpenAIEmbedder -> LibCall Driver EntityNode;
  EntityNode_save : EntityNode -> LibCall Driver unit;
  EntityNode_get_by_group_ids : list string -> LibCall Driver (list EntityNode);
  EntityNode_delete : EntityNode -> LibCall Driver unit;
  EpisodicNode_get_by_uuid : string -> LibCall Driver EpisodicNode;
  EpisodicNode_get_by_group_ids : list string -> LibCall Driver (list EpisodicNode);
  EpisodicNode_delete : EpisodicNode -> LibCall Driver unit
}.

(** What a delegate method does, in order: the library calls it makes and
    the records it sends to the logger. *)
Inductive Event `{lib : GraphitiCore} :=
| edge_get_by_uuid (uuid : string)
| edge_get_by_group_ids (group_ids : list string)
| edge_delete (edge : EntityEdge)
| node_generate_name_embedding (node : EntityNode)
| node_save (node : EntityNode)
| node_get_by_group_ids (group_ids : list string)
| node_delete (node : EntityNode)
| episode_get_by_uuid (uuid : string)
| episode_get_by_group_ids (group_ids : list string)
| episode_delete (episode : EpisodicNode)
| logger_warning (msg : string).

(** ** Methods as computations over the database *)

Section Methods.

Context `{lib : GraphitiCore}.

(** A run of a method: how it ended, the database afterwards, and what it
    did on the way. *)
Record Outcome (A : Type) := mkOutcome {
  result : Exception + A;
  driver_after : Driver;
  trace : list Event
}.
Arguments mkOutcome {A} _ _ _.
Arguments result {A} _.
Arguments driver_after {A} _.
Arguments trace {A} _.

Definition M (A : Type) : Type := Driver -> Outcome A.

Definition ret {A} (a : A) : M A :=
  fun d => mkOutcome (inr a) d [].

Definition raise {A} (e : Exception) : M A :=
  fun d => mkOutcome (inl e) d [].

Definition bind {A B} (m : M A) (k : A -> M B) : M B :=
  fun d =>
    let o := m d in
    match result o with
    | inl e => mkOutcome (inl e) (driver_after o) (trace o)
    | inr a =>
        let o' := k a (driver_after o) in
        mkOutcome (result o') (driver_after o') (trace o ++ trace o')
    end.

(** [try: m except cls as e: handler(e)].  The library's error classes do
    not inherit from one another, and [HTTPException] is none of them. *)
Definition try_except {A} (m : M A) (cls : ErrorClass)
    (handler : GraphitiError -> M A) : M A :=
  fun d =>
    let o := m d in
    match result o with
    | inl (Library e) =>
        if decide (error_class e = cls) then
          let o' := handler e (driver_after o) in
          mkOutcome (result o') (driver_after o') (trace o ++ trace o')
        else o
    | _ => o
    end.

(** [await] of a library call, recorded in the trace. *)
Definition call {A} (ev : Event) (f : LibCall Driver A) : M A :=
  fun d =>
    let '(r, d') := f d in
    mkOutcome
      (match r with inl e => inl (Library e) | inr a => inr a end) d' [ev].

Definition log_warning (msg : string) : M unit :=
  fun d => mkOutcome (inr tt) d [logger_warning msg].

(** [for x in xs: body(x)]. *)
Fixpoint for_each {A} (xs : list A) (body : A -> M unit) : M unit :=
  match xs with
  | [] => ret tt
  | x :: xs' => bind (body x) (fun _ => for_each xs' body)
  end.

End Methods.

Arguments mkOutcome {lib A} _ _ _.
Arguments result {lib A} _.
Arguments driver_after {lib A} _.
Arguments trace {lib A} _.

Declare Scope method_scope.
Delimit Scope method_scope with method.
Notation "'let*' x ':=' m 'in' k" := (bind m (fun x => k))
  (at level 10, x name, m at level 100, k at level 200) : method_scope.

(** ** The delegate methods of [ZepGraphiti] *)

Section Delegates.

Context `{lib : GraphitiCore}.
Open Scope method_scope.

(** [raise HTTPException(status_code=404, detail=e.message) from e]. *)
Definition raise_not_found {A} (e : GraphitiError) : M A :=
  raise (HTTPException 404 (message e) e).

Definition save_entity_node (self : ZepGraphiti)
    (name uuid group_id summary : string) : M EntityNode :=
  let new_node := EntityNode_new name uuid group_id summary in
  let* new_node := call (node_generate_name_embedding new_node)
                (EntityNode_generate_name_embedding new_node (embedder self)) in
  let* _ := call (node_save new_node) (EntityNode_save new_node) in
  ret new_node.

Definition get_entity_edge (self : ZepGraphiti) (uuid : string) : M EntityEdge :=
  try_except
    (let* edge := call (edge_get_by_uuid uuid) (EntityEdge_get_by_uuid uuid) in
     ret edge)
    EdgeNotFoundError
    raise_not_found.

(** The [try] block at the head of [delete_group]. *)
Definition fetch_group_edges (group_id : string) : M (list EntityEdge) :=
  try_except
    (call (edge_get_by_group_ids [group_id])
       (EntityEdge_get_by_group_ids [group_id]))
    GroupsEdgesNotFoundError
    (fun _ =>
       let* _ := log_warning ("No edges found for group " ++ group_id) in
       ret []).

(** The three loops at the end of [delete_group]. *)
Definition delete_fetched (edges : list EntityEdge) (nodes : list EntityNode)
    (episodes : list EpisodicNode) : M unit :=
  let* _ := for_each edges
         (fun edge => call (edge_delete edge) (EntityEdge_delete edge)) in
  let* _ := for_each nodes
         (fun node => call (node_delete node) (EntityNode_delete node)) in
  for_each episodes
    (fun episode => call (episode_delete episode) (EpisodicNode_delete episode)).

Definition delete_group (self : ZepGraphiti) (group_id : string) : M unit :=
  let* edges := fetch_group_edges group_id in
  let* nodes := call (node_get_by_group_ids [group_id])
             (EntityNode_get_by_group_ids [group_id]) in
  let* episodes := call (episode_get_by_group_ids [group_id])
                (EpisodicNode_get_by_group_ids [group_id]) in
  delete_fetched edges nodes episodes.

Definition delete_entity_edge (self : ZepGraphiti) (uuid : string) : M unit :=
  try_except
    (let* edge := call (edge_get_by_uuid uuid) (EntityEdge_get_by_uuid uuid) in
     call (edge_delete edge) (EntityEdge_delete edge))
    EdgeNotFoundError
    raise_not_found.

Definition delete_episodic_node (self : ZepGraphiti) (uuid : string) : M unit :=
  try_except
    (let* episode := call (episode_get_by_uuid uuid) (EpisodicNode_get_by_uuid uuid) in
     call (episode_delete episode) (EpisodicNode_delete episode))
    NodeNotFoundError
    raise_not_found.

(** What the [except] clauses of [get_entity_edge], [delete_entity_edge]
    and [delete_episodic_node] make of a library error: the not-found
    failure for the class they name, the error itself otherwise. *)
Definition translate (cls : ErrorClass) (e : GraphitiError) : Exception :=
  if decide (error_class e = cls) then HTTPException 404 (message e) e
  else Library e.

(** The phase of [delete_group] an event belongs to: fetching and logging,
    then edge deletions, then node deletions, then episode deletions. *)
Definition phase (ev : Event) : nat :=
  match ev with
  | edge_delete _ => 1
  | node_delete _ => 2
  | episode_delete _ => 3
  | _ => 0
  end.

(** The graph mutations among the events of a trace: the three kinds of
    deletion and the save. *)
Definition is_mutation (ev : Event) : bool :=
  match ev with
  | edge_delete _ | node_delete _ | episode_delete _ | node_save _ => true
  | _ => false
  end.

Definition mutations (tr : list Event) : list Event :=
  List.filter is_mutation tr.

(** The events of a full run of the three loops of [delete_group]. *)
Definition deletions (es : list EntityEdge) (ns : list EntityNode)
    (ps : list EpisodicNode) : list Event :=
  (map edge_delete es ++ map node_delete ns ++ map episode_delete ps)%list.

(** Whether a run ended in an [HTTPException]. *)
Definition raised_http {A} (r : Exception + A) : bool :=
  match r with
  | inl (HTTPException _ _ _) => true
  | _ => false
  end.

(** The edge lookup of [delete_group] lets the method go on: it returned,
    or it raised the error that the [except] clause names. *)
Definition edge_fetch_passes {A} (r : GraphitiError + A) : Prop :=
  match r with
  | inr _ => True
  | inl e => error_class e = GroupsEdgesNotFoundError
  end.

(** What is left of [delete_group] once the edges are known. *)
Definition delete_group_rest (group_id : string) (edges : list EntityEdge)
  : M unit :=
  let* nodes := call (node_get_by_group_ids [group_id])
             (EntityNode_get_by_group_ids [group_id]) in
  let* episodes := call (episode_get_by_group_ids [group_id])
                (EpisodicNode_get_by_group_ids [group_id]) in
  delete_fetched edges nodes episodes.

(** A run that ended in the user-facing not-found failure with this
    detail. *)
Definition not_found_failure {A} (o : Outcome A) (detail : string) : Prop :=
  exists cause, result o = inl (HTTPException 404 detail cause).

(** A library call with its return value dropped: how it ended and the
    database it left. *)
Definition dropped {A} (f : LibCall Driver A) : LibCall Driver unit :=
  fun d =>
    (match (f d).1 with inl e => inl e | inr _ => inr tt end, (f d).2).

(** The library call that an event records.  A logger record leaves the
    database alone; the embedding call is made with the embedder [emb]. *)
Definition library_call (emb : OpenAIEmbedder) (ev : Event)
  : LibCall Driver unit :=
  match ev with
  | edge_get_by_uuid uuid => dropped (EntityEdge_get_by_uuid uuid)
  | edge_get_by_group_ids group_ids =>
      dropped (EntityEdge_get_by_group_ids group_ids)
  | edge_delete edge => dropped (EntityEdge_delete edge)
  | node_generate_name_embedding node =>
      dropped (EntityNode_generate_name_embedding node emb)
  | node_save node => dropped (EntityNode_save node)
  | node_get_by_group_ids group_ids =>
      dropped (EntityNode_get_by_group_ids group_ids)
  | node_delete node => dropped (EntityNode_delete node)
  | episode_get_by_uuid uuid => dropped (EpisodicNode_get_by_uuid uuid)
  | episode_get_by_group_ids group_ids =>
      dropped (EpisodicNode_get_by_group_ids group_ids)
  | episode_delete episode => dropped (EpisodicNode_delete episode)
  | logger_warning _ => fun d => (inr tt, d)
  end.

(** The database after the library calls of a trace have been made, in
    the order of the trace, starting from [d]. *)
Definition replay (emb : OpenAIEmbedder) (tr : list Event) (d : Driver)
  : Driver :=
  fold_left (fun d' ev => (library_call emb ev d').2) tr d.

(** The first error raised when the library calls of [evs] are made in
    order from [d], each against the database the one before it left;
    [None] when every one of them returns. *)
Fixpoint first_failure (emb : OpenAIEmbedder) (evs : list Event) (d : Driver)
  : option GraphitiError :=
  match evs with
  | [] => None
  | ev :: evs' =>
      match (library_call emb ev d).1 with
      | inl e => Some e
      | inr _ => first_failure emb evs' (library_call emb ev d).2
      end
  end.

End Delegates.

(** ** An in-memory instance of the library interface

    Used to run the methods on concrete graphs.  Records carry a uuid and a
    group id.  Lookups by uuid raise the library's not-found error when
    nothing matches; the edge lookup by group raises
    [GroupsEdgesNotFoundError] on an empty result.  With [strict] set, the
    node and episode lookups by group raise [NodeNotFoundError] on an empty
    result as well; otherwise they return the empty list.  Every lookup
    raises an error of another class when the database is not [online]. *)

Module Sample.

Record Item := mkItem {
  item_uuid : string;
  item_group : string
}.

#[global] Instance Item_eq_dec : EqDecision Item.
Proof. solve_decision. Defined.

Record Graph := mkGraph {
  online : bool;
  edges : list Item;
  nodes : list Item;
  episodes : list Item
}.

Definition connected {A} (f : LibCall Graph A) : LibCall Graph A :=
  fun g =>
    if online g then f g
    else (inl (mkGraphitiError OtherError "connection refused"), g).

Definition in_groups (group_ids : list string) (x : Item) : bool :=
  bool_decide (item_group x ∈ group_ids).

Definition has_uuid (uuid : string) (x : Item) : bool :=
  bool_decide (item_uuid x = uuid).

Definition remove_item (x : Item) (l : list Item) : list Item :=
  List.filter (fun y => negb (has_uuid (item_uuid x) y)) l.

Definition edge_by_uuid (uuid : string) : LibCall Graph Item :=
  connected (fun g =>
    match List.find (has_uuid uuid) (edges g) with
    | Some e => (inr e, g)
    | None =>
        (inl (mkGraphitiError EdgeNotFoundError ("edge " ++ uuid ++ " not found")), g)
    end).

Definition edges_by_group (group_ids : list string) : LibCall Graph (list Item) :=
  connected (fun g =>
    match List.filter (in_groups group_ids) (edges g) with
    | [] =>
        (inl (mkGraphitiError GroupsEdgesNotFoundError
                ("no edges found for group ids " ++ String.concat ", " group_ids)), g)
    | es => (inr es, g)
    end).

Definition items_by_group (strict : bool) (what : string)
    (select : Graph -> list Item) (group_ids : list string)
  : LibCall Graph (list Item) :=
  connected (fun g =>
    match List.filter (in_groups group_ids) (select g) with
    | [] =>
        if strict then
          (inl (mkGraphitiError NodeNotFoundError
                  ("no " ++ what ++ " found for group ids "
                     ++ String.concat ", " group_ids)), g)
        else (inr [], g)
    | xs => (inr xs, g)
    end).

Definition episode_by_uuid (uuid : string) : LibCall Graph Item :=
  connected (fun g =>
    match List.find (has_uuid uuid) (episodes g) with
    | Some e => (inr e, g)
    | None =>
        (inl (mkGraphitiError NodeNotFoundError ("node " ++ uuid ++ " not found")), g)
    end).

Definition delete_edge (x : Item) : LibCall Graph unit :=
  fun g =>
    (inr tt, mkGraph (online g) (remove_item x (edges g)) (nodes g) (episodes g)).

Definition delete_node (x : Item) : LibCall Graph unit :=
  fun g =>
    (inr tt, mkGraph (online g) (edges g) (remove_item x (nodes g)) (episodes g)).

Definition delete_episode (x : Item) : LibCall Graph unit :=
  fun g =>
    (inr tt, mkGraph (online g) (edges g) (nodes g) (remove_item x (episodes g))).

Definition save_node (x : Item) : LibCall Graph unit :=
  fun g =>
    (inr tt,
     mkGraph (online g) (edges g) (x :: remove_item x (nodes g)) (episodes g)).

Definition library (strict : bool) : GraphitiCore := {|
  Driver := Graph;
  EntityEdge := Item;
  EntityNode := Item;
  EpisodicNode := Item;
  EntityEdge_get_by_uuid := edge_by_uuid;
  EntityEdge_get_by_group_ids := edges_by_group;
  EntityEdge_delete := delete_edge;
  EntityNode_new := fun name uuid group_id summary => mkItem uuid group_id;
  EntityNode_generate_name_embedding := fun node emb g => (inr node, g);
  EntityNode_save := save_node;
  EntityNode_get_by_group_ids := items_by_group strict "nodes" nodes;
  EntityNode_delete := delete_node;
  EpisodicNode_get_by_uuid := episode_by_uuid;
  EpisodicNode_get_by_group_ids := items_by_group strict "episodes" episodes;
  EpisodicNode_delete := delete_episode
|}.

(** A constructor in the shape of the library's: the chat client it was
    given or a default one, and a default embedder. *)
Definition default_llm_client : LLMClient :=
  mkLLMClient (Some "gpt-4.1-mini") (mkLLMConfig None None (Some "gpt-4.1-nano")).

Definition default_embedder : OpenAIEmbedder :=
  mkOpenAIEmbedder (mkOpenAIEmbedderConfig None None "text-embedding-3-small").

Definition Graphiti_init (uri user password : string)
    (llm_client : option LLMClient) : ZepGraphiti :=
  let llm := default default_llm_client llm_client in
  mkZepGraphiti uri user password llm default_embedder
    (mkGraphitiClients default_embedder).

(** Three groups: [g1] has two edges, a node and two episodes; [g2] has
    nodes and an episode but no edge; [g4] has a node only. *)
Definition graph : Graph :=
  mkGraph true
    [mkItem "e1" "g1"; mkItem "e2" "g1"]
    [mkItem "n1" "g1"; mkItem "n2" "g2"; mkItem "n3" "g2"; mkItem "n4" "g4"]
    [mkItem "p1" "g1"; mkItem "p2" "g2"; mkItem "p3" "g1"].

Definition unreachable_graph : Graph :=
  mkGraph false (edges graph) (nodes graph) (episodes graph).

Definition settings : Settings :=
  mkSettings "bolt://neo4j:7687" "neo4j" "secret"
    (Some "http://ollama:11434/v1") None (Some "llama3") (Some "nomic-embed-text").

Definition self : ZepGraphiti := _create_configured_client Graphiti_init settings.

End Sample.

(** ** A read-only instance of the library interface

    The lookups of [Sample.library false]; every write (a deletion or a
    save) raises an error of another class and leaves the graph as it is,
    and the embedding call raises when the embedder has no API key. *)

Module ReadOnly.

Definition refuse {A} : LibCall Sample.Graph A :=
  fun g => (inl (mkGraphitiError OtherError "database is read-only"), g).

Definition embed (node : Sample.Item) (emb : OpenAIEmbedder)
  : LibCall Sample.Graph Sample.Item :=
  fun g =>
    match embedder_api_key (embedder_config emb) with
    | Some _ => (inr node, g)
    | None => (inl (mkGraphitiError OtherError "no API key for the embedder"), g)
    end.

Definition library : GraphitiCore := {|
  Driver := Sample.Graph;
  EntityEdge := Sample.Item;
  EntityNode := Sample.Item;
  EpisodicNode := Sample.Item;
  EntityEdge_get_by_uuid := Sample.edge_by_uuid;
  EntityEdge_get_by_group_ids := Sample.edges_by_group;
  EntityEdge_delete := fun _ => refuse;
  EntityNode_new := fun name uuid group_id summary => Sample.mkItem uuid group_id;
  EntityNode_generate_name_embedding := embed;
  EntityNode_save := fun _ => refuse;
  EntityNode_get_by_group_ids := Sample.items_by_group false "nodes" Sample.nodes;
  EntityNode_delete := fun _ => refuse;
  EpisodicNode_get_by_uuid := Sample.episode_by_uuid;
  EpisodicNode_get_by_group_ids :=
    Sample.items_by_group false "episodes" Sample.episodes;
  EpisodicNode_delete := fun _ => refuse
|}.

(** A client as the library's constructor leaves it, without a key for
    the embedder. *)
Definition unconfigured : ZepGraphiti :=
  Sample.Graphiti_init "bolt://neo4j:7687" "neo4j" "secret" None.

End ReadOnly.

(** ** Start-up conditions

    Constructors that never raise, and an environment from which no
    settings can be derived. *)

Module Startup.

Definition Graphiti_raises (uri user password : string) : option Raised := None.

Definition OpenAIEmbedder_raises (config : OpenAIEmbedderConfig)
  : option Raised := None.

(** An embedder constructor that refuses a configuration without a base
    URL. *)
Definition OpenAIEmbedder_needs_base_url (config : OpenAIEmbedderConfig)
  : option Raised :=
  match embedder_base_url config with
  | Some _ => None
  | None => Some (raised "no base URL for the embedder")
  end.

Definition invalid_environment : Raised + Settings :=
  inl (raised "NEO4J_URI: field required").

End Startup.

(** ** Observations on a process *)

Definition is_build (e : Effect) : bool :=
  match e with build_indices_and_constraints _ => true | _ => false end.

Definition is_logger_info (e : Effect) : bool :=
  match e with logger_info _ _ _ => true | _ => false end.

(** How many times [build_indices_and_constraints] has been called. *)
Definition build_calls (p : Process) : nat :=
  List.length (List.filter is_build (effects p)).

(** How many creation records the logger has received. *)
Definition creation_records (p : Process) : nat :=
  List.length (List.filter is_logger_info (effects p)).

Definition is_initialize (op : Op) : bool :=
  match op with call_initialize_graphiti _ _ => true | _ => false end.

Section Lifecycle.

Variable Graphiti_init :
  string -> string -> string -> option LLMClient -> ZepGraphiti.
Variable Graphiti_raises : string -> string -> string -> option Raised.
Variable OpenAIEmbedder_raises : OpenAIEmbedderConfig -> option Raised.

(** In the run of [ops] from [p], every call of the accessor, direct or
    through [get_graphiti] or [initialize_graphiti], returns. *)
Fixpoint no_attempt_raises (ops : list Op) (p : Process) : Prop :=
  match ops with
  | [] => True
  | op :: ops' =>
      match op with
      | environ_changed _ => True
      | _ =>
          exists c,
            (_get_shared_client Graphiti_init Graphiti_raises
               OpenAIEmbedder_raises p).1 = inr c
      end /\
      no_attempt_raises ops'
        (step Graphiti_init Graphiti_raises OpenAIEmbedder_raises p op)
  end.

(** The shape of a process that started fresh.  While the slot is empty
    the only effects are settings reads, one for each attempt that raised.
    With the slot filled, the slot refers to the last client allocated,
    which was built from some settings [env0], and the effects are the
    settings reads, the creation record for [env0], and index builds on
    that client. *)
Definition created_once (p : Process) : Prop :=
  match _shared_client p with
  | None => exists k, effects p = replicate k get_settings_call
  | Some c =>
      S c = List.length (heap p) /\
      exists env0 k n,
        heap p !! c = Some (_create_configured_client Graphiti_init env0) /\
        effects p =
          (replicate k get_settings_call
           ++ logger_info "Created shared Graphiti client (model=%s, embedding=%s)"
                (model_name env0) (embedding_model_name env0)
              :: replicate n (build_indices_and_constraints c))%list
  end.

End Lifecycle.

(** * Properties of the client factory *)

Section FactoryProperties.

Variable Graphiti_init :
  string -> string -> string -> option LLMClient -> ZepGraphiti.

Local Abbreviation create := (_create_configured_client Graphiti_init).

(** The client as the library's constructor leaves it. *)
Local Abbreviation constructed s :=
  (ZepGraphiti_new Graphiti_init (neo4j_uri s) (neo4j_user s) (neo4j_password s)).

(** The chat-client assignments leave the embedder fields alone. *)
Lemma if_not_None_frame {A B} (v : option A) (f : A -> ZepGraphiti -> ZepGraphiti)
    (proj : ZepGraphiti -> B) (c : ZepGraphiti) :
  (forall a c', proj (f a c') = proj c') ->
  proj (if_not_None v f c) = proj c.
Proof. intros Hf. destruct v as [a|]; simpl; [apply Hf | reflexivity]. Qed.

Lemma llm_configuration_frame {B} (proj : ZepGraphiti -> B) (s : Settings)
    (c : ZepGraphiti) :
  (forall v c', proj (set_llm_base_url v c') = proj c') ->
  (forall v c', proj (set_llm_api_key v c') = proj c') ->
  (forall v c', proj (set_llm_model v c') = proj c') ->
  proj (if_not_None (model_name s) set_llm_model
          (if_not_None (openai_api_key s) set_llm_api_key
             (if_not_None (openai_base_url s) set_llm_base_url c))) = proj c.
Proof.
  intros H1 H2 H3.
  rewrite !if_not_None_frame by assumption. reflexivity.
Qed.

(** The chat client's base URL and API key after the factory has run. *)
Lemma llm_base_url_configured (s : Settings) (u : string) :
  openai_base_url s = Some u ->
  base_url (config (llm_client (create s))) = Some u.
Proof.
  intros Hu. unfold _create_configured_client. rewrite Hu.
  destruct (embedding_model_name s), (model_name s), (openai_api_key s);
    reflexivity.
Qed.

Lemma llm_api_key_configured (s : Settings) (k : string) :
  openai_api_key s = Some k ->
  api_key (config (llm_client (create s))) = Some k.
Proof.
  intros Hk. unfold _create_configured_client. rewrite Hk.
  destruct (embedding_model_name s), (model_name s), (openai_base_url s);
    reflexivity.
Qed.

Lemma embedder_configured (s : Settings) (name : string) :
  embedding_model_name s = Some name ->
  embedder (create s) =
    mkOpenAIEmbedder
      (mkOpenAIEmbedderConfig (Some (or_default (openai_api_key s) "ollama"))
         (openai_base_url s) name)
  /\ clients_embedder (clients (create s)) = embedder (create s).
Proof.
  intros Hn. unfold _create_configured_client. rewrite Hn. split; reflexivity.
Qed.

(** C2, as amended.  When an embedding model name is configured, the
    client's embedder (both [client.embedder] and [client.clients.embedder])
    uses that model name; its base URL is the configured [openai_base_url],
    which is the chat client's base URL whenever one is configured; its API
    key is the configured [openai_api_key] when that is neither [None] nor
    empty, the chat client's key then, and ["ollama"] otherwise. *)
Theorem embedder_follows_settings (s : Settings) (name : string) :
  embedding_model_name s = Some name ->
  let client := create s in
  let cfg := embedder_config (embedder client) in
  clients_embedder (clients client) = embedder client /\
  embedding_model cfg = name /\
  embedder_base_url cfg = openai_base_url s /\
  (openai_base_url s <> None ->
   embedder_base_url cfg = base_url (config (llm_client client))) /\
  embedder_api_key cfg = Some (or_default (openai_api_key s) "ollama") /\
  (forall k, openai_api_key s = Some k -> k <> EmptyString ->
   embedder_api_key cfg = Some k /\
   embedder_api_key cfg = api_key (config (llm_client client))) /\
  (openai_api_key s = None \/ openai_api_key s = Some EmptyString ->
   embedder_api_key cfg = Some "ollama").
Proof.
  intros Hn client cfg.
  destruct (embedder_configured s name Hn) as [He Hc].
  subst cfg client. rewrite Hc, He. simpl.
  do 3 (split; [reflexivity|]).
  split; [|split; [reflexivity|split]].
  - destruct (openai_base_url s) as [u|] eqn:Hu; [|congruence].
    intros _. symmetry. now apply llm_base_url_configured.
  - intros k Hk Hne. rewrite Hk. simpl.
    destruct (decide (k = EmptyString)); [congruence|].
    split; [reflexivity|]. symmetry. now apply llm_api_key_configured.
  - intros [Hk|Hk]; rewrite Hk; reflexivity.
Qed.

(** C10.  When no embedding model name is configured, [embedder] and
    [clients.embedder] are those the library's constructor installed,
    whatever the other settings are. *)
Theorem embedder_untouched_without_model_name (s : Settings) :
  embedding_model_name s = None ->
  embedder (create s) = embedder (constructed s) /\
  clients (create s) = clients (constructed s) /\
  clients_embedder (clients (create s)) = clients_embedder (clients (constructed s)).
Proof.
  intros Hn. unfold _create_configured_client. rewrite Hn.
  assert (Hc : clients (if_not_None (model_name s) set_llm_model
            (if_not_None (openai_api_key s) set_llm_api_key
               (if_not_None (openai_base_url s) set_llm_base_url (constructed s))))
          = clients (constructed s))
    by (apply llm_configuration_frame; reflexivity).
  split; [|split].
  - apply llm_configuration_frame; reflexivity.
  - exact Hc.
  - now rewrite Hc.
Qed.

End FactoryProperties.

(** C2 as stated fails: with no API key configured, the embedder's key is
    ["ollama"] while the chat client keeps the key the constructor gave it. *)
Lemma embedder_key_differs_from_chat_key :
  let client := _create_configured_client Sample.Graphiti_init Sample.settings in
  embedding_model_name Sample.settings <> None /\
  embedder_api_key (embedder_config (embedder client))
    <> api_key (config (llm_client client)).
Proof. split; discriminate. Qed.

Lemma embedder_follows_settings_witness :
  let client := _create_configured_client Sample.Graphiti_init Sample.settings in
  embedding_model (embedder_config (embedder client)) = "nomic-embed-text" /\
  embedder_base_url (embedder_config (embedder client))
    = base_url (config (llm_client client)).
Proof.
  destruct (embedder_follows_settings Sample.Graphiti_init Sample.settings
              "nomic-embed-text" eq_refl) as (_ & Hm & _ & Hu & _).
  split; [exact Hm | apply Hu; discriminate].
Defined.

Lemma embedder_untouched_without_model_name_witness :
  let s := mkSettings "bolt://neo4j:7687" "neo4j" "secret"
             (Some "http://ollama:11434/v1") (Some "sk-1") (Some "llama3") None in
  embedder (_create_configured_client Sample.Graphiti_init s)
    = Sample.default_embedder.
Proof.
  exact (proj1 (embedder_untouched_without_model_name Sample.Graphiti_init
                  (mkSettings "bolt://neo4j:7687" "neo4j" "secret"
                     (Some "http://ollama:11434/v1") (Some "sk-1") (Some "llama3") None)
                  eq_refl)).
Defined.

(** * Properties of the singleton *)

Section SingletonProperties.

Variable Graphiti_init :
  string -> string -> string -> option LLMClient -> ZepGraphiti.
Variable Graphiti_raises : string -> string -> string -> option Raised.
Variable OpenAIEmbedder_raises : OpenAIEmbedderConfig -> option Raised.

Local Abbreviation factory_call :=
  (_create_configured_client_call Graphiti_init Graphiti_raises
     OpenAIEmbedder_raises).
Local Abbreviation accessor :=
  (_get_shared_client Graphiti_init Graphiti_raises OpenAIEmbedder_raises).
Local Abbreviation step' :=
  (step Graphiti_init Graphiti_raises OpenAIEmbedder_raises).
Local Abbreviation run' :=
  (run Graphiti_init Graphiti_raises OpenAIEmbedder_raises).
Local Abbreviation get_graphiti' :=
  (get_graphiti Graphiti_init Graphiti_raises OpenAIEmbedder_raises).
Local Abbreviation initialize_graphiti' :=
  (initialize_graphiti Graphiti_init Graphiti_raises OpenAIEmbedder_raises).

Lemma settings_reads_emit (e : Effect) (p : Process) :
  settings_reads (emit e p)
  = settings_reads p + (if bool_decide (e = get_settings_call) then 1 else 0).
Proof.
  unfold settings_reads, emit. simpl.
  rewrite List.filter_app, length_app. simpl.
  destruct (bool_decide (e = get_settings_call)); reflexivity.
Qed.

(** What a call of the factory does to a process: it touches nothing but
    the heap, to which it adds the returned client, or the dropped one,
    or nothing. *)
Lemma factory_call_run (s : Settings) (q : Process) :
  _shared_client (factory_call s q).2 = _shared_client q /\
  environ (factory_call s q).2 = environ q /\
  effects (factory_call s q).2 = effects q /\
  match (factory_call s q).1 with
  | inr c =>
      c = List.length (heap q) /\
      heap (factory_call s q).2
      = (heap q ++ [_create_configured_client Graphiti_init s])%list
  | inl _ => exists dropped, heap (factory_call s q).2 = (heap q ++ dropped)%list
  end.
Proof.
  unfold _create_configured_client_call.
  destruct (Graphiti_raises _ _ _) as [e|].
  { simpl. repeat split. exists []. now rewrite app_nil_r. }
  destruct (embedding_model_name s) as [name|]; [|simpl; auto].
  destruct (OpenAIEmbedder_raises _) as [e|]; simpl; [|auto].
  repeat split. eauto.
Qed.

(** With the slot filled the accessor is a pure read. *)
Lemma accessor_filled (p : Process) (c : loc) :
  _shared_client p = Some c -> accessor p = (inr c, p).
Proof. intros H. unfold _get_shared_client. now rewrite H. Qed.

(** A call on an empty slot, case by case. *)
Lemma accessor_empty (p : Process) :
  _shared_client p = None ->
  accessor p =
  match environ p with
  | inl e => (inl e, emit get_settings_call p)
  | inr s =>
      let r := factory_call s (emit get_settings_call p) in
      match r.1 with
      | inl e => (inl e, r.2)
      | inr c =>
          (inr c,
           emit (logger_info
                   "Created shared Graphiti client (model=%s, embedding=%s)"
                   (model_name s) (embedding_model_name s))
             (set_shared_client c r.2))
      end
  end.
Proof.
  intros H. unfold _get_shared_client, get_settings. rewrite H.
  destruct (environ p) as [e|s]; [reflexivity|].
  cbv zeta. destruct (factory_call s (emit get_settings_call p)) as [[e|c] q];
    reflexivity.
Qed.

(** After a call that returned, the slot holds the reference returned. *)
Lemma accessor_fills (p : Process) (c : loc) :
  (accessor p).1 = inr c -> _shared_client (accessor p).2 = Some c.
Proof.
  destruct (_shared_client p) as [c0|] eqn:Hc.
  - rewrite (accessor_filled p c0 Hc). simpl. now intros [= <-].
  - rewrite (accessor_empty p Hc). destruct (environ p) as [e|s]; [discriminate|].
    cbv zeta. destruct (factory_call s _).1 as [e|c1]; [discriminate|].
    simpl. now intros [= <-].
Qed.

(** After a call that raised, the slot is as empty as before. *)
Lemma accessor_raises (p : Process) (e : Raised) :
  (accessor p).1 = inl e ->
  _shared_client p = None /\ _shared_client (accessor p).2 = None.
Proof.
  destruct (_shared_client p) as [c0|] eqn:Hc.
  - rewrite (accessor_filled p c0 Hc). discriminate.
  - rewrite (accessor_empty p Hc). intros H. split; [reflexivity|].
    destruct (environ p) as [e'|s]; [exact Hc|].
    cbv zeta in *. pose proof (factory_call_run s (emit get_settings_call p))
      as (Hs & _).
    destruct (factory_call s _).1 as [e'|c1]; [|discriminate].
    simpl. rewrite Hs. exact Hc.
Qed.

(** A call reads the settings exactly when it finds the slot empty. *)
Lemma accessor_reads (p : Process) :
  settings_reads (accessor p).2
  = settings_reads p + match _shared_client p with Some _ => 0 | None => 1 end.
Proof.
  destruct (_shared_client p) as [c0|] eqn:Hc.
  - rewrite (accessor_filled p c0 Hc). simpl. lia.
  - rewrite (accessor_empty p Hc).
    pose proof (settings_reads_emit get_settings_call p) as He. simpl in He.
    destruct (environ p) as [e|s]; [exact He|].
    cbv zeta. pose proof (factory_call_run s (emit get_settings_call p))
      as (_ & _ & Hf & _).
    assert (Hr : settings_reads (factory_call s (emit get_settings_call p)).2
                 = settings_reads p + 1).
    { unfold settings_reads in *. now rewrite Hf. }
    destruct (factory_call s _).1 as [e|c1]; simpl; [exact Hr|].
    rewrite settings_reads_emit. simpl.
    unfold settings_reads in *. simpl. lia.
Qed.

(** A call that returns on an empty slot: the settings were there, and
    the client returned is the factory's for them, newly allocated. *)
Lemma accessor_creates (p : Process) (c : loc) :
  _shared_client p = None -> (accessor p).1 = inr c ->
  exists s,
    environ p = inr s /\
    c = List.length (heap p) /\
    heap (accessor p).2
    = (heap p ++ [_create_configured_client Graphiti_init s])%list /\
    effects (accessor p).2
    = (effects p ++
       [get_settings_call;
        logger_info "Created shared Graphiti client (model=%s, embedding=%s)"
          (model_name s) (embedding_model_name s)])%list.
Proof.
  intros Hc. rewrite (accessor_empty p Hc).
  destruct (environ p) as [e|s]; [discriminate|].
  cbv zeta. pose proof (factory_call_run s (emit get_settings_call p))
    as (_ & _ & Hf & Hh).
  destruct (factory_call s _).1 as [e|c1]; [discriminate|].
  simpl. intros [= <-]. destruct Hh as [Hl Hh].
  exists s. simpl in *. rewrite Hh, Hf. simpl.
  rewrite <- app_assoc. auto.
Qed.

(** The invariant: once the slot is filled, no step changes the slot, the
    heap, or the number of settings reads. *)
Lemma step_filled (p : Process) (c : loc) (op : Op) :
  _shared_client p = Some c ->
  _shared_client (step' p op) = Some c /\
  heap (step' p op) = heap p /\
  settings_reads (step' p op) = settings_reads p.
Proof.
  intros H. destruct op as [|s|s built|env]; simpl.
  - rewrite (accessor_filled p c H). auto.
  - unfold get_graphiti. rewrite (accessor_filled p c H). auto.
  - unfold initialize_graphiti. rewrite (accessor_filled p c H). simpl.
    rewrite settings_reads_emit. simpl. repeat split; [exact H | lia].
  - auto.
Qed.

Lemma run_filled (ops : list Op) (p : Process) (c : loc) :
  _shared_client p = Some c ->
  _shared_client (run' ops p) = Some c /\
  heap (run' ops p) = heap p /\
  settings_reads (run' ops p) = settings_reads p.
Proof.
  revert p. induction ops as [|op ops IH]; intros p H; simpl; [auto|].
  destruct (step_filled p c op H) as (Hs & Hh & Hr).
  destruct (IH _ Hs) as (Hs' & Hh' & Hr').
  unfold run in *. simpl. rewrite Hs', Hh', Hr'. auto.
Qed.

(** From an empty slot with no read so far, a run in which no attempt
    raises makes at most one read. *)
Lemma run_reads_bound (ops : list Op) (p : Process) :
  no_attempt_raises Graphiti_init Graphiti_raises OpenAIEmbedder_raises ops p ->
  _shared_client p = None -> settings_reads p = 0 ->
  settings_reads (run' ops p) <= 1.
Proof.
  revert p. induction ops as [|op ops IH]; intros p Hno Hc Hr; simpl; [lia|].
  destruct Hno as [Hop Hno].
  pose proof (accessor_reads p) as Hreads. rewrite Hc, Hr in Hreads.
  assert (Hacc : (exists c, (accessor p).1 = inr c) ->
                 settings_reads (run' ops (accessor p).2) <= 1).
  { intros [c Hret].
    destruct (run_filled ops _ _ (accessor_fills p c Hret)) as (_ & _ & ->).
    lia. }
  unfold run in *. simpl.
  destruct op as [|s'|s' built|env]; simpl.
  - now apply Hacc.
  - unfold get_graphiti. specialize (Hacc Hop).
    destruct (accessor p) as [got p1]. exact Hacc.
  - destruct Hop as [c Hret]. unfold initialize_graphiti.
    pose proof (accessor_fills p c Hret) as Hfill.
    destruct (accessor p) as [got p1] eqn:Hp. simpl in *. subst got.
    assert (Hf : _shared_client (emit (build_indices_and_constraints c) p1)
                 = Some c) by exact Hfill.
    destruct (run_filled ops _ _ Hf) as (_ & _ & Hrr).
    unfold run in Hrr. simpl. rewrite Hrr, settings_reads_emit. simpl. lia.
  - apply IH; auto.
Qed.

(** C1.  Once a call of the accessor has returned a reference, that
    reference is in the slot, stays there through every later sequence of
    operations, and is what every later call returns: no later call
    raises, and none returns anything else. *)
Theorem shared_client_is_one_instance :
  forall (p : Process) (c : loc) (ops ops' : list Op) (s : Settings),
    (accessor p).1 = inr c ->
    let p1 := (accessor p).2 in
    _shared_client p1 = Some c /\
    _shared_client (run' ops p1) = Some c /\
    (accessor (run' ops p1)).1 = inr c /\
    (accessor (run' ops' (accessor (run' ops p1)).2)).1 = inr c /\
    (get_graphiti' s (run' ops p1)).1 = inr [c] /\
    heap (run' ops p1) !! c = heap p1 !! c.
Proof.
  intros p c ops ops' s Hret p1.
  pose proof (accessor_fills p c Hret) as H1. fold p1 in H1.
  destruct (run_filled ops p1 c H1) as (H2 & Hh & _).
  pose proof (accessor_filled _ _ H2) as H3.
  repeat split.
  - exact H1.
  - exact H2.
  - now rewrite H3.
  - rewrite H3. simpl.
    destruct (run_filled ops' _ c H2) as (H4 & _ & _).
    now rewrite (accessor_filled _ _ H4).
  - unfold get_graphiti. now rewrite H3.
  - now rewrite Hh.
Qed.

(** C5, as amended.  A call of the accessor reads the settings exactly
    when it finds the slot empty.  Once a call has returned, no operation
    reads them again, and the heap stays as it is even when the
    environment changes.  A process that started fresh and in which no
    call of the accessor raises reads the settings at most once. *)
Theorem settings_read_only_on_empty_slot :
  forall (p : Process) (ops : list Op),
    settings_reads (accessor p).2
      = settings_reads p
        + match _shared_client p with Some _ => 0 | None => 1 end /\
    (forall c, (accessor p).1 = inr c ->
       settings_reads (run' ops (accessor p).2) = settings_reads (accessor p).2 /\
       heap (run' ops (accessor p).2) = heap (accessor p).2) /\
    (forall env,
       no_attempt_raises Graphiti_init Graphiti_raises OpenAIEmbedder_raises
         ops (fresh_process env) ->
       settings_reads (run' ops (fresh_process env)) <= 1).
Proof.
  intros p ops. split; [apply accessor_reads|]. split.
  - intros c Hret.
    destruct (run_filled ops _ _ (accessor_fills p c Hret)) as (_ & Hh & Hr).
    auto.
  - intros env Hno. now apply run_reads_bound.
Qed.


End SingletonProperties.

(** C5 as stated fails: when the settings cannot be derived, the call
    raises with the slot still empty, and the next call reads them again. *)
Lemma settings_read_again_after_failure :
  let p :=
    run Sample.Graphiti_init Startup.Graphiti_raises Startup.OpenAIEmbedder_raises
      [call_get_shared_client; call_get_shared_client]
      (fresh_process Startup.invalid_environment) in
  _shared_client p = None /\ settings_reads p = 2.
Proof. split; reflexivity. Qed.

Lemma shared_client_is_one_instance_witness :
  let p1 :=
    (_get_shared_client Sample.Graphiti_init Startup.Graphiti_raises
       Startup.OpenAIEmbedder_raises (fresh_process (inr Sample.settings))).2 in
  (_get_shared_client Sample.Graphiti_init Startup.Graphiti_raises
     Startup.OpenAIEmbedder_raises
     (run Sample.Graphiti_init Startup.Graphiti_raises
        Startup.OpenAIEmbedder_raises
        [environ_changed Startup.invalid_environment;
         call_initialize_graphiti Sample.settings None] p1)).1 = inr 0.
Proof.
  destruct (shared_client_is_one_instance Sample.Graphiti_init
              Startup.Graphiti_raises Startup.OpenAIEmbedder_raises
              (fresh_process (inr Sample.settings)) 0
              [environ_changed Startup.invalid_environment;
               call_initialize_graphiti Sample.settings None]
              [] Sample.settings eq_refl) as (_ & _ & H & _).
  exact H.
Defined.

Lemma settings_read_only_on_empty_slot_witness :
  settings_reads
    (run Sample.Graphiti_init Startup.Graphiti_raises
       Startup.OpenAIEmbedder_raises
       [call_get_graphiti Sample.settings; call_get_shared_client;
        call_initialize_graphiti Sample.settings None]
       (fresh_process (inr Sample.settings))) <= 1.
Proof.
  destruct (settings_read_only_on_empty_slot Sample.Graphiti_init
              Startup.Graphiti_raises Startup.OpenAIEmbedder_raises
              (fresh_process (inr Sample.settings))
              [call_get_graphiti Sample.settings; call_get_shared_client;
               call_initialize_graphiti Sample.settings None])
    as (_ & _ & H).
  apply (H (inr Sample.settings)).
  simpl. repeat split; exists 0; reflexivity.
Defined.

(** * Properties of the delegate methods *)

Section DelegateProperties.

Context `{lib : GraphitiCore}.

(** ** Running the combinators *)

Lemma call_run {A} (ev : Event) (f : LibCall Driver A) (d : Driver) :
  call ev f d
  = mkOutcome (match (f d).1 with inl e => inl (Library e) | inr a => inr a end)
      (f d).2 [ev].
Proof. unfold call. now destruct (f d) as [[e|a] d']. Qed.

Lemma bind_run_raise {A B} (m : M A) (k : A -> M B) (d : Driver) (x : Exception) :
  result (m d) = inl x ->
  bind m k d = mkOutcome (inl x) (driver_after (m d)) (trace (m d)).
Proof. intros H. unfold bind. now rewrite H. Qed.

Lemma bind_run_ret {A B} (m : M A) (k : A -> M B) (d : Driver) (a : A) :
  result (m d) = inr a ->
  bind m k d
  = mkOutcome (result (k a (driver_after (m d))))
      (driver_after (k a (driver_after (m d))))
      (trace (m d) ++ trace (k a (driver_after (m d)))).
Proof. intros H. unfold bind. now rewrite H. Qed.

Lemma bind_call_run {A B} (ev : Event) (f : LibCall Driver A) (k : A -> M B)
    (d : Driver) :
  bind (call ev f) k d =
  match (f d).1 with
  | inl e => mkOutcome (inl (Library e)) (f d).2 [ev]
  | inr a =>
      let o := k a (f d).2 in
      mkOutcome (result o) (driver_after o) (ev :: trace o)
  end.
Proof. unfold bind. rewrite call_run. simpl. now destruct (f d).1. Qed.

(** A [try] block that ends in [raise_not_found]: when the body raises a
    library error the block raises the translation of that error, and when
    the body returns the block is the body. *)
Lemma try_except_translate {A} (m : M A) (cls : ErrorClass) (d : Driver)
    (e : GraphitiError) :
  result (m d) = inl (Library e) ->
  result (try_except m cls raise_not_found d) = inl (translate cls e).
Proof.
  intros H. unfold try_except, translate. rewrite H.
  destruct (decide (error_class e = cls)); [reflexivity | exact H].
Qed.

Lemma try_except_returns {A} (m : M A) (cls : ErrorClass)
    (h : GraphitiError -> M A) (d : Driver) (a : A) :
  result (m d) = inr a -> try_except m cls h d = m d.
Proof. intros H. unfold try_except. now rewrite H. Qed.

(** ** The deletion loops *)

(** A loop of library calls runs a prefix of the list, all of it when it
    returns, and raises nothing but a library error. *)
Lemma for_each_call_run {A} (mk : A -> Event) (f : A -> LibCall Driver unit)
    (xs : list A) (d : Driver) :
  let o := for_each xs (fun x => call (mk x) (f x)) d in
  exists ys zs,
    xs = (ys ++ zs)%list /\
    trace o = map mk ys /\
    (result o = inr tt -> zs = []) /\
    (forall x, result o = inl x -> exists e, x = Library e).
Proof.
  revert d. induction xs as [|x xs IH]; intros d; simpl.
  - exists [], []. repeat split; discriminate.
  - unfold bind. rewrite call_run. simpl.
    destruct (f x d).1 as [e|[]] eqn:Hx; simpl.
    + exists [x], xs. repeat split; [discriminate|].
      intros y [= <-]. eauto.
    + destruct (IH (f x d).2) as (ys & zs & Hxs & Htr & Hok & Herr).
      exists (x :: ys), zs. simpl. rewrite Htr.
      split; [now f_equal | auto].
Qed.

Lemma for_each_call_total {A} (mk : A -> Event) (f : A -> LibCall Driver unit)
    (xs : list A) (d : Driver) :
  (forall x d', (f x d').1 = inr tt) ->
  result (for_each xs (fun x => call (mk x) (f x)) d) = inr tt /\
  trace (for_each xs (fun x => call (mk x) (f x)) d) = map mk xs.
Proof.
  intros Hf. revert d. induction xs as [|x xs IH]; intros d; simpl; [auto|].
  destruct (IH (f x d).2) as [Hr Ht].
  unfold bind. rewrite call_run, Hf. simpl. rewrite Hr. simpl. rewrite Ht. auto.
Qed.

Lemma delete_fetched_run (es : list EntityEdge) (ns : list EntityNode)
    (ps : list EpisodicNode) (d : Driver) :
  let o := delete_fetched es ns ps d in
  exists es' ns' ps' rest,
    trace o = deletions es' ns' ps' /\
    deletions es ns ps = (trace o ++ rest)%list /\
    (result o = inr tt -> rest = []) /\
    (forall x, result o = inl x -> exists e, x = Library e).
Proof.
  unfold delete_fetched, deletions. simpl.
  destruct (for_each_call_run edge_delete EntityEdge_delete es d)
    as (es1 & es2 & Hes & Ht1 & Hok1 & Herr1).
  simpl in *. set (m1 := for_each es _) in *.
  destruct (result (m1 d)) as [x|[]] eqn:Hr1.
  { rewrite (bind_run_raise _ _ _ _ Hr1). simpl.
    exists es1, [], [], (map edge_delete es2 ++ map node_delete ns
                          ++ map episode_delete ps)%list.
    rewrite Ht1, Hes, map_app, !app_nil_r, <- !app_assoc.
    repeat split; [discriminate|]. intros y [= <-]. now apply Herr1. }
  rewrite (bind_run_ret _ _ _ _ Hr1). simpl.
  rewrite (Hok1 eq_refl), app_nil_r in Hes. subst es1. rewrite Ht1.
  set (d1 := driver_after (m1 d)).
  destruct (for_each_call_run node_delete EntityNode_delete ns d1)
    as (ns1 & ns2 & Hns & Ht2 & Hok2 & Herr2).
  simpl in *. set (m2 := for_each ns _) in *.
  destruct (result (m2 d1)) as [x|[]] eqn:Hr2.
  { rewrite (bind_run_raise _ _ _ _ Hr2). simpl.
    exists es, ns1, [], (map node_delete ns2 ++ map episode_delete ps)%list.
    rewrite Ht2, Hns, map_app, !app_nil_r, <- !app_assoc.
    repeat split; [discriminate|]. intros y [= <-]. now apply Herr2. }
  rewrite (bind_run_ret _ _ _ _ Hr2). simpl.
  rewrite (Hok2 eq_refl), app_nil_r in Hns. subst ns1. rewrite Ht2.
  set (d2 := driver_after (m2 d1)).
  destruct (for_each_call_run episode_delete EpisodicNode_delete ps d2)
    as (ps1 & ps2 & Hps & Ht3 & Hok3 & Herr3).
  simpl in *. set (m3 := for_each ps _) in *.
  exists es, ns, ps1, (map episode_delete ps2).
  rewrite Ht3, Hps, map_app, <- !app_assoc.
  repeat split.
  - intros Hr. now rewrite (Hok3 Hr).
  - exact Herr3.
Qed.

(** ** The shape of a run of [delete_group] *)

Lemma fetch_group_edges_run (group_id : string) (d : Driver) :
  fetch_group_edges group_id d =
  let r := EntityEdge_get_by_group_ids [group_id] d in
  match r.1 with
  | inr es => mkOutcome (inr es) r.2 [edge_get_by_group_ids [group_id]]
  | inl e =>
      if decide (error_class e = GroupsEdgesNotFoundError) then
        mkOutcome (inr []) r.2
          [edge_get_by_group_ids [group_id];
           logger_warning ("No edges found for group " ++ group_id)]
      else mkOutcome (inl (Library e)) r.2 [edge_get_by_group_ids [group_id]]
  end.
Proof.
  unfold fetch_group_edges, try_except. rewrite call_run. simpl.
  destruct (EntityEdge_get_by_group_ids [group_id] d).1 as [e|es]; [|reflexivity].
  destruct (decide (error_class e = GroupsEdgesNotFoundError)); reflexivity.
Qed.

Lemma delete_group_run (self : ZepGraphiti) (group_id : string) (d : Driver) :
  let o := delete_group self group_id d in
  let o1 := fetch_group_edges group_id d in
  match result o1 with
  | inl x => o = mkOutcome (inl x) (driver_after o1) (trace o1)
  | inr es =>
      let r2 := EntityNode_get_by_group_ids [group_id] (driver_after o1) in
      match r2.1 with
      | inl e =>
          o = mkOutcome (inl (Library e)) r2.2
                (trace o1 ++ [node_get_by_group_ids [group_id]])
      | inr ns =>
          let r3 := EpisodicNode_get_by_group_ids [group_id] r2.2 in
          match r3.1 with
          | inl e =>
              o = mkOutcome (inl (Library e)) r3.2
                    (trace o1 ++ [node_get_by_group_ids [group_id];
                                  episode_get_by_group_ids [group_id]])
          | inr ps =>
              let o4 := delete_fetched es ns ps r3.2 in
              o = mkOutcome (result o4) (driver_after o4)
                    (trace o1 ++ [node_get_by_group_ids [group_id];
                                  episode_get_by_group_ids [group_id]]
                       ++ trace o4)
          end
      end
  end.
Proof.
  simpl. unfold delete_group.
  destruct (result (fetch_group_edges group_id d)) as [x|es] eqn:H1.
  { now rewrite (bind_run_raise _ _ _ _ H1). }
  rewrite (bind_run_ret _ _ _ _ H1).
  set (d1 := driver_after (fetch_group_edges group_id d)).
  rewrite bind_call_run.
  destruct (EntityNode_get_by_group_ids [group_id] d1).1 as [e|ns]; [reflexivity|].
  simpl. rewrite bind_call_run.
  destruct (EpisodicNode_get_by_group_ids [group_id] _).1 as [e|ps];
    reflexivity.
Qed.

(** The events of the fetching stage are of phase 0. *)
Lemma fetch_group_edges_phase (group_id : string) (d : Driver) :
  Forall (fun ev => phase ev = 0) (trace (fetch_group_edges group_id d)).
Proof.
  rewrite fetch_group_edges_run. simpl.
  destruct (EntityEdge_get_by_group_ids [group_id] d).1 as [e|es]; simpl.
  - destruct (decide (error_class e = GroupsEdgesNotFoundError)); simpl;
      repeat constructor.
  - repeat constructor.
Qed.

Lemma sorted_constant_app (k : nat) (l1 l2 : list nat) :
  Forall (fun n => n = k) l1 -> Forall (le k) l2 -> StronglySorted le l2 ->
  StronglySorted le (l1 ++ l2).
Proof.
  intros H1 H2 H3. induction H1 as [|n l1 Hn Hl IH]; simpl; [exact H3|].
  subst n. constructor; [exact IH|].
  apply Forall_app. split; [|exact H2].
  eapply Forall_impl; [exact Hl|]. simpl. intros; lia.
Qed.

Lemma phase_map {A} (mk : A -> Event) (k : nat) (xs : list A) :
  (forall x, phase (mk x) = k) ->
  Forall (fun n => n = k) (map phase (map mk xs)).
Proof. intros H. induction xs; simpl; constructor; auto. Qed.

Lemma deletions_sorted (pre : list Event) (es : list EntityEdge)
    (ns : list EntityNode) (ps : list EpisodicNode) :
  Forall (fun ev => phase ev = 0) pre ->
  StronglySorted le (map phase (pre ++ deletions es ns ps)).
Proof.
  intros Hpre. unfold deletions. rewrite !map_app.
  assert (H3 : Forall (fun n => n = 3) (map phase (map episode_delete ps)))
    by now apply phase_map.
  assert (H2 : Forall (fun n => n = 2) (map phase (map node_delete ns)))
    by now apply phase_map.
  assert (H1 : Forall (fun n => n = 1) (map phase (map edge_delete es)))
    by now apply phase_map.
  assert (H0 : Forall (fun n => n = 0) (map phase pre)).
  { clear -Hpre. induction Hpre; simpl; constructor; auto. }
  assert (S3 : StronglySorted le (map phase (map episode_delete ps))).
  { rewrite <- (app_nil_r (map phase _)).
    apply (sorted_constant_app 3); [exact H3 | constructor | constructor]. }
  assert (G3 : forall k, k <= 3 ->
                 Forall (le k) (map phase (map episode_delete ps))).
  { intros k Hk. eapply Forall_impl; [exact H3|]. simpl. intros; lia. }
  assert (G2 : forall k, k <= 2 ->
                 Forall (le k) (map phase (map node_delete ns))).
  { intros k Hk. eapply Forall_impl; [exact H2|]. simpl. intros; lia. }
  assert (G1 : forall k, k <= 1 ->
                 Forall (le k) (map phase (map edge_delete es))).
  { intros k Hk. eapply Forall_impl; [exact H1|]. simpl. intros; lia. }
  apply (sorted_constant_app 0); [exact H0 | |].
  { rewrite !Forall_app. repeat split; [apply G1|apply G2|apply G3]; lia. }
  apply (sorted_constant_app 1); [exact H1 | |].
  { rewrite !Forall_app. repeat split; [apply G2|apply G3]; lia. }
  apply (sorted_constant_app 2); [exact H2 | apply G3; lia | exact S3].
Qed.

(** Nothing before the loops is a mutation, and every event of the loops
    is one. *)
Lemma mutations_of_run (pre : list Event) (es : list EntityEdge)
    (ns : list EntityNode) (ps : list EpisodicNode) :
  Forall (fun ev => phase ev = 0) pre ->
  Forall (fun ev => is_mutation ev = false) pre ->
  mutations (pre ++ deletions es ns ps) = deletions es ns ps.
Proof.
  intros _ Hpre. unfold mutations, deletions.
  rewrite List.filter_app.
  assert (Hn : List.filter is_mutation pre = []).
  { induction Hpre as [|ev pre Hev _ IH]; simpl; [reflexivity|].
    now rewrite Hev. }
  rewrite Hn. simpl. rewrite !List.filter_app.
  assert (Hall : forall {A} (mk : A -> Event) (xs : list A),
             (forall x, is_mutation (mk x) = true) ->
             List.filter is_mutation (map mk xs) = map mk xs).
  { intros A mk xs Hmk. induction xs as [|x xs IH]; simpl; [reflexivity|].
    now rewrite Hmk, IH. }
  rewrite !Hall by reflexivity. reflexivity.
Qed.

Lemma fetch_group_edges_no_mutation (group_id : string) (d : Driver) :
  Forall (fun ev => is_mutation ev = false) (trace (fetch_group_edges group_id d)).
Proof.
  rewrite fetch_group_edges_run. simpl.
  destruct (EntityEdge_get_by_group_ids [group_id] d).1 as [e|es]; simpl.
  - destruct (decide (error_class e = GroupsEdgesNotFoundError)); simpl;
      repeat constructor.
  - repeat constructor.
Qed.

(** Every run of [delete_group] is a fetching stage followed by a prefix
    of the deletions of what was fetched. *)
Lemma delete_group_stages (self : ZepGraphiti) (group_id : string) (d : Driver) :
  let o := delete_group self group_id d in
  exists pre es ns ps,
    trace o = (pre ++ deletions es ns ps)%list /\
    Forall (fun ev => phase ev = 0) pre /\
    Forall (fun ev => is_mutation ev = false) pre /\
    (forall x, result o = inl x -> exists e, x = Library e).
Proof.
  simpl. pose proof (delete_group_run self group_id d) as Hrun. simpl in Hrun.
  pose proof (fetch_group_edges_phase group_id d) as Hp.
  pose proof (fetch_group_edges_no_mutation group_id d) as Hm.
  pose proof (fetch_group_edges_run group_id d) as Hf. simpl in Hf.
  set (o1 := fetch_group_edges group_id d) in *.
  destruct (result o1) as [x|es] eqn:H1.
  { rewrite Hrun. exists (trace o1), [], [], []. simpl.
    unfold deletions. simpl. rewrite app_nil_r. repeat split; auto.
    intros y [= <-]. clear Hrun.
    destruct (EntityEdge_get_by_group_ids [group_id] d).1 as [e|es'].
    - destruct (decide (error_class e = GroupsEdgesNotFoundError));
        rewrite Hf in H1; simpl in H1; [discriminate|].
      injection H1 as <-. eauto.
    - rewrite Hf in H1. discriminate. }
  destruct (EntityNode_get_by_group_ids [group_id] (driver_after o1)).1
    as [e|ns].
  { rewrite Hrun. exists (trace o1 ++ [node_get_by_group_ids [group_id]])%list, [], [], [].
    unfold deletions. simpl. rewrite app_nil_r.
    repeat split; try (apply Forall_app; split; auto; repeat constructor).
    intros y [= <-]. eauto. }
  destruct (EpisodicNode_get_by_group_ids [group_id] _).1 as [e|ps].
  { rewrite Hrun.
    exists (trace o1 ++ [node_get_by_group_ids [group_id];
                          episode_get_by_group_ids [group_id]])%list, [], [], [].
    unfold deletions. simpl. rewrite app_nil_r.
    repeat split; try (apply Forall_app; split; auto; repeat constructor).
    intros y [= <-]. eauto. }
  rewrite Hrun. simpl.
  match goal with |- context [delete_fetched es ns ps ?d3] =>
    destruct (delete_fetched_run es ns ps d3) as (es' & ns' & ps' & rest & Ht & _ & _ & Herr)
  end.
  simpl in Ht, Herr. rewrite Ht.
  exists (trace o1 ++ [node_get_by_group_ids [group_id];
                        episode_get_by_group_ids [group_id]])%list, es', ns', ps'.
  rewrite <- app_assoc. simpl.
  repeat split; try (apply Forall_app; split; auto; repeat constructor).
  exact Herr.
Qed.

Lemma fetch_group_edges_driver (group_id : string) (d : Driver) :
  driver_after (fetch_group_edges group_id d)
  = (EntityEdge_get_by_group_ids [group_id] d).2.
Proof.
  rewrite fetch_group_edges_run. simpl.
  destruct (EntityEdge_get_by_group_ids [group_id] d).1 as [e|es]; [|reflexivity].
  now destruct (decide (error_class e = GroupsEdgesNotFoundError)).
Qed.

Lemma delete_group_unfold (self : ZepGraphiti) (group_id : string) (d : Driver) :
  delete_group self group_id d
  = bind (fetch_group_edges group_id) (delete_group_rest group_id) d.
Proof. reflexivity. Qed.

(** ** Translation of not-found errors *)

Lemma get_entity_edge_result (self : ZepGraphiti) (uuid : string) (d : Driver) :
  result (get_entity_edge self uuid d) =
  match (EntityEdge_get_by_uuid uuid d).1 with
  | inl e => inl (translate EdgeNotFoundError e)
  | inr edge => inr edge
  end.
Proof.
  unfold get_entity_edge.
  destruct (EntityEdge_get_by_uuid uuid d).1 as [e|edge] eqn:H.
  - apply try_except_translate. now rewrite bind_call_run, H.
  - erewrite try_except_returns; rewrite bind_call_run, H; reflexivity.
Qed.

Lemma delete_entity_edge_result (self : ZepGraphiti) (uuid : string) (d : Driver) :
  result (delete_entity_edge self uuid d) =
  let r := EntityEdge_get_by_uuid uuid d in
  match r.1 with
  | inl e => inl (translate EdgeNotFoundError e)
  | inr edge =>
      match (EntityEdge_delete edge r.2).1 with
      | inl e => inl (translate EdgeNotFoundError e)
      | inr u => inr u
      end
  end.
Proof.
  unfold delete_entity_edge. simpl.
  destruct (EntityEdge_get_by_uuid uuid d).1 as [e|edge] eqn:H.
  - apply try_except_translate. now rewrite bind_call_run, H.
  - destruct (EntityEdge_delete edge _).1 as [e|u] eqn:H'.
    + apply try_except_translate.
      rewrite bind_call_run, H. simpl. now rewrite call_run, H'.
    + erewrite try_except_returns; rewrite bind_call_run, H; simpl;
        rewrite call_run, H'; reflexivity.
Qed.

Lemma delete_episodic_node_result (self : ZepGraphiti) (uuid : string)
    (d : Driver) :
  result (delete_episodic_node self uuid d) =
  let r := EpisodicNode_get_by_uuid uuid d in
  match r.1 with
  | inl e => inl (translate NodeNotFoundError e)
  | inr episode =>
      match (EpisodicNode_delete episode r.2).1 with
      | inl e => inl (translate NodeNotFoundError e)
      | inr u => inr u
      end
  end.
Proof.
  unfold delete_episodic_node. simpl.
  destruct (EpisodicNode_get_by_uuid uuid d).1 as [e|episode] eqn:H.
  - apply try_except_translate. now rewrite bind_call_run, H.
  - destruct (EpisodicNode_delete episode _).1 as [e|u] eqn:H'.
    + apply try_except_translate.
      rewrite bind_call_run, H. simpl. now rewrite call_run, H'.
    + erewrite try_except_returns; rewrite bind_call_run, H; simpl;
        rewrite call_run, H'; reflexivity.
Qed.

Lemma translate_named (cls : ErrorClass) (e : GraphitiError) :
  error_class e = cls -> translate cls e = HTTPException 404 (message e) e.
Proof. intros H. unfold translate. now rewrite decide_True. Qed.

Lemma save_entity_node_result (self : ZepGraphiti)
    (name uuid group_id summary : string) (d : Driver) :
  result (save_entity_node self name uuid group_id summary d) =
  let new_node := EntityNode_new name uuid group_id summary in
  let r := EntityNode_generate_name_embedding new_node (embedder self) d in
  match r.1 with
  | inl e => inl (Library e)
  | inr node =>
      match (EntityNode_save node r.2).1 with
      | inl e => inl (Library e)
      | inr _ => inr node
      end
  end.
Proof.
  unfold save_entity_node. simpl. rewrite bind_call_run.
  destruct (EntityNode_generate_name_embedding _ _ d).1 as [e|node];
    [reflexivity|].
  simpl. rewrite bind_call_run.
  now destruct (EntityNode_save node _).1.
Qed.

Lemma delete_group_no_http (self : ZepGraphiti) (group_id : string) (d : Driver) :
  raised_http (result (delete_group self group_id d)) = false.
Proof.
  destruct (delete_group_stages self group_id d) as (_ & _ & _ & _ & _ & _ & _ & H).
  simpl in H. destruct (result (delete_group self group_id d)) as [x|u];
    [|reflexivity].
  destruct (H x eq_refl) as [e ->]. reflexivity.
Qed.

(** C3.  When the lookup by uuid raises the library's not-found error,
    [get_entity_edge], [delete_entity_edge] and [delete_episodic_node]
    raise [HTTPException] with status 404 and, as detail, the message of
    that error. *)
Theorem not_found_becomes_404 (self : ZepGraphiti) (uuid : string) (d : Driver) :
  (forall e,
     (EntityEdge_get_by_uuid uuid d).1 = inl e ->
     error_class e = EdgeNotFoundError ->
     result (get_entity_edge self uuid d)
       = inl (HTTPException 404 (message e) e) /\
     result (delete_entity_edge self uuid d)
       = inl (HTTPException 404 (message e) e)) /\
  (forall e,
     (EpisodicNode_get_by_uuid uuid d).1 = inl e ->
     error_class e = NodeNotFoundError ->
     result (delete_episodic_node self uuid d)
       = inl (HTTPException 404 (message e) e)).
Proof.
  split; intros e He Hcls.
  - rewrite get_entity_edge_result, delete_entity_edge_result. simpl.
    rewrite He, (translate_named _ _ Hcls). auto.
  - rewrite delete_episodic_node_result. simpl.
    now rewrite He, (translate_named _ _ Hcls).
Qed.

(** C7, as amended.  [get_entity_edge] and [delete_entity_edge] turn an
    [EdgeNotFoundError], and [delete_episodic_node] a [NodeNotFoundError],
    raised by any of their library calls into the 404 failure with the
    library's message, and let every other library error through as it is;
    [save_entity_node] lets every library error through as it is, and
    [delete_group] never raises an [HTTPException]. *)
Theorem error_translation_by_method (self : ZepGraphiti)
    (name uuid group_id summary : string) (d : Driver) :
  result (get_entity_edge self uuid d) =
    match (EntityEdge_get_by_uuid uuid d).1 with
    | inl e => inl (translate EdgeNotFoundError e)
    | inr edge => inr edge
    end /\
  result (delete_entity_edge self uuid d) =
    match (EntityEdge_get_by_uuid uuid d).1 with
    | inl e => inl (translate EdgeNotFoundError e)
    | inr edge =>
        match (EntityEdge_delete edge (EntityEdge_get_by_uuid uuid d).2).1 with
        | inl e => inl (translate EdgeNotFoundError e)
        | inr u => inr u
        end
    end /\
  result (delete_episodic_node self uuid d) =
    match (EpisodicNode_get_by_uuid uuid d).1 with
    | inl e => inl (translate NodeNotFoundError e)
    | inr episode =>
        match (EpisodicNode_delete episode (EpisodicNode_get_by_uuid uuid d).2).1 with
        | inl e => inl (translate NodeNotFoundError e)
        | inr u => inr u
        end
    end /\
  result (save_entity_node self name uuid group_id summary d) =
    match (EntityNode_generate_name_embedding
             (EntityNode_new name uuid group_id summary) (embedder self) d).1 with
    | inl e => inl (Library e)
    | inr node =>
        match (EntityNode_save node
                 (EntityNode_generate_name_embedding
                    (EntityNode_new name uuid group_id summary)
                    (embedder self) d).2).1 with
        | inl e => inl (Library e)
        | inr _ => inr node
        end
    end /\
  raised_http (result (delete_group self group_id d)) = false.
Proof.
  repeat split.
  - apply get_entity_edge_result.
  - apply delete_entity_edge_result.
  - apply delete_episodic_node_result.
  - apply save_entity_node_result.
  - apply delete_group_no_http.
Qed.

(** ** The database after a run *)

Lemma replay_app (emb : OpenAIEmbedder) (t1 t2 : list Event) (d : Driver) :
  replay emb (t1 ++ t2) d = replay emb t2 (replay emb t1 d).
Proof. unfold replay. apply fold_left_app. Qed.

Lemma first_failure_app (emb : OpenAIEmbedder) (t1 t2 : list Event)
    (d : Driver) :
  first_failure emb (t1 ++ t2) d =
  match first_failure emb t1 d with
  | Some e => Some e
  | None => first_failure emb t2 (replay emb t1 d)
  end.
Proof.
  revert d. induction t1 as [|ev t1 IH]; intros d; simpl; [reflexivity|].
  destruct (library_call emb ev d).1; [reflexivity|]. apply IH.
Qed.

(** The combinators hand on the database that the recorded calls
    produce. *)
Lemma ret_tracks (emb : OpenAIEmbedder) {A} (a : A) (d : Driver) :
  driver_after (ret a d) = replay emb (trace (ret a d)) d.
Proof. reflexivity. Qed.

Lemma call_tracks (emb : OpenAIEmbedder) {A} (ev : Event)
    (f : LibCall Driver A) (d : Driver) :
  library_call emb ev = dropped f ->
  driver_after (call ev f d) = replay emb (trace (call ev f d)) d.
Proof. intros H. rewrite call_run. unfold replay. simpl. now rewrite H. Qed.

Lemma bind_tracks (emb : OpenAIEmbedder) {A B} (m : M A) (k : A -> M B)
    (d : Driver) :
  (forall d', driver_after (m d') = replay emb (trace (m d')) d') ->
  (forall a d', driver_after (k a d') = replay emb (trace (k a d')) d') ->
  driver_after (bind m k d) = replay emb (trace (bind m k d)) d.
Proof.
  intros Hm Hk. unfold bind. destruct (result (m d)) as [e|a].
  - apply Hm.
  - cbn [driver_after trace]. now rewrite replay_app, Hk, Hm.
Qed.

Lemma try_except_tracks (emb : OpenAIEmbedder) {A} (m : M A)
    (cls : ErrorClass) (h : GraphitiError -> M A) (d : Driver) :
  (forall d', driver_after (m d') = replay emb (trace (m d')) d') ->
  (forall e d', driver_after (h e d') = replay emb (trace (h e d')) d') ->
  driver_after (try_except m cls h d)
  = replay emb (trace (try_except m cls h d)) d.
Proof.
  intros Hm Hh. unfold try_except.
  destruct (result (m d)) as [[e|s msg c]|a]; try apply Hm.
  destruct (decide (error_class e = cls)); [|apply Hm].
  cbn [driver_after trace]. now rewrite replay_app, Hh, Hm.
Qed.

Lemma for_each_tracks (emb : OpenAIEmbedder) {A} (xs : list A)
    (body : A -> M unit) (d : Driver) :
  (forall x d', driver_after (body x d') = replay emb (trace (body x d')) d') ->
  driver_after (for_each xs body d) = replay emb (trace (for_each xs body d)) d.
Proof.
  intros Hb. revert d. induction xs as [|x xs IH]; intros d; [reflexivity|].
  simpl. apply bind_tracks; [apply Hb | intros _ d'; apply IH].
Qed.

Lemma delete_fetched_tracks (emb : OpenAIEmbedder) (es : list EntityEdge)
    (ns : list EntityNode) (ps : list EpisodicNode) (d : Driver) :
  driver_after (delete_fetched es ns ps d)
  = replay emb (trace (delete_fetched es ns ps d)) d.
Proof.
  unfold delete_fetched.
  apply bind_tracks; [intros d'|intros _ d'].
  { apply for_each_tracks. intros x d''. now apply call_tracks. }
  apply bind_tracks; [intros d''|intros _ d''].
  { apply for_each_tracks. intros x d3. now apply call_tracks. }
  apply for_each_tracks. intros x d3. now apply call_tracks.
Qed.

Lemma fetch_group_edges_tracks (emb : OpenAIEmbedder) (group_id : string)
    (d : Driver) :
  driver_after (fetch_group_edges group_id d)
  = replay emb (trace (fetch_group_edges group_id d)) d.
Proof.
  unfold fetch_group_edges. apply try_except_tracks.
  - intros d'. now apply call_tracks.
  - intros e d'. apply bind_tracks; [reflexivity | intros; apply ret_tracks].
Qed.

(** The database [delete_group] leaves is the one its recorded library
    calls produce, made in the order recorded. *)
Lemma delete_group_tracks (emb : OpenAIEmbedder) (self : ZepGraphiti)
    (group_id : string) (d : Driver) :
  driver_after (delete_group self group_id d)
  = replay emb (trace (delete_group self group_id d)) d.
Proof.
  unfold delete_group.
  apply bind_tracks; [intros d'; apply fetch_group_edges_tracks|].
  intros es d'. apply bind_tracks; [intros d2; now apply call_tracks|].
  intros ns d2. apply bind_tracks; [intros d3; now apply call_tracks|].
  intros ps d3. apply delete_fetched_tracks.
Qed.

(** A loop of deletions none of which raises runs to its end. *)
Lemma for_each_call_clean (emb : OpenAIEmbedder) {A} (mk : A -> Event)
    (f : A -> LibCall Driver unit) (xs : list A) (d : Driver) :
  (forall x, library_call emb (mk x) = dropped (f x)) ->
  first_failure emb (map mk xs) d = None ->
  result (for_each xs (fun x => call (mk x) (f x)) d) = inr tt /\
  trace (for_each xs (fun x => call (mk x) (f x)) d) = map mk xs.
Proof.
  intros Hmk. revert d. induction xs as [|x xs IH]; intros d; simpl; [auto|].
  rewrite Hmk. unfold dropped at 1 2. cbn [fst snd].
  destruct (f x d).1 as [e|[]] eqn:Hx; [discriminate|].
  intros Hrest. destruct (IH _ Hrest) as [Hr Ht].
  unfold bind. rewrite call_run, Hx. cbn [result driver_after trace].
  rewrite Hr. cbn [result trace]. now rewrite Ht.
Qed.

Lemma delete_fetched_clean (emb : OpenAIEmbedder) (es : list EntityEdge)
    (ns : list EntityNode) (ps : list EpisodicNode) (d : Driver) :
  first_failure emb (deletions es ns ps) d = None ->
  result (delete_fetched es ns ps d) = inr tt /\
  trace (delete_fetched es ns ps d) = deletions es ns ps /\
  driver_after (delete_fetched es ns ps d) = replay emb (deletions es ns ps) d.
Proof.
  intros Hclean.
  assert (H : result (delete_fetched es ns ps d) = inr tt /\
              trace (delete_fetched es ns ps d) = deletions es ns ps).
  { unfold deletions in Hclean. rewrite !first_failure_app in Hclean.
    destruct (first_failure emb (map edge_delete es) d) eqn:H1; [discriminate|].
    destruct (first_failure emb (map node_delete ns) _) eqn:H2; [discriminate|].
    unfold delete_fetched, deletions.
    destruct (for_each_call_clean emb edge_delete EntityEdge_delete es d
                (fun _ => eq_refl) H1) as [Hr1 Ht1].
    assert (Hd1 : driver_after
                    (for_each es
                       (fun edge => call (edge_delete edge)
                                      (EntityEdge_delete edge)) d)
                  = replay emb (map edge_delete es) d).
    { rewrite <- Ht1. apply for_each_tracks. intros. now apply call_tracks. }
    rewrite (bind_run_ret _ _ _ _ Hr1). cbn [result trace]. rewrite Ht1, Hd1.
    destruct (for_each_call_clean emb node_delete EntityNode_delete ns _
                (fun _ => eq_refl) H2) as [Hr2 Ht2].
    assert (Hd2 : driver_after
                    (for_each ns
                       (fun node => call (node_delete node)
                                      (EntityNode_delete node))
                       (replay emb (map edge_delete es) d))
                  = replay emb (map node_delete ns)
                      (replay emb (map edge_delete es) d)).
    { rewrite <- Ht2. apply for_each_tracks. intros. now apply call_tracks. }
    rewrite (bind_run_ret _ _ _ _ Hr2). cbn [result trace]. rewrite Ht2, Hd2.
    destruct (for_each_call_clean emb episode_delete EpisodicNode_delete ps _
                (fun _ => eq_refl) Hclean) as [Hr3 Ht3].
    now rewrite Hr3, Ht3. }
  destruct H as [Hr Ht]. repeat split; [exact Hr | exact Ht |].
  now rewrite delete_fetched_tracks with (emb := emb), Ht.
Qed.

(** A loop of deletions ends with the first error that one of them
    raises. *)
Lemma for_each_call_result (emb : OpenAIEmbedder) {A} (mk : A -> Event)
    (f : A -> LibCall Driver unit) (xs : list A) (d : Driver) :
  (forall x, library_call emb (mk x) = dropped (f x)) ->
  result (for_each xs (fun x => call (mk x) (f x)) d) =
  match first_failure emb (map mk xs) d with
  | Some e => inl (Library e)
  | None => inr tt
  end.
Proof.
  intros Hmk. revert d. induction xs as [|x xs IH]; intros d; simpl;
    [reflexivity|].
  rewrite Hmk. unfold dropped at 1 2. cbn [fst snd].
  unfold bind. rewrite call_run. cbn [result driver_after trace].
  destruct (f x d).1 as [e|[]]; [reflexivity|].
  cbn [result]. apply IH.
Qed.

Lemma delete_fetched_result (emb : OpenAIEmbedder) (es : list EntityEdge)
    (ns : list EntityNode) (ps : list EpisodicNode) (d : Driver) :
  result (delete_fetched es ns ps d) =
  match first_failure emb (deletions es ns ps) d with
  | Some e => inl (Library e)
  | None => inr tt
  end.
Proof.
  unfold deletions. rewrite !first_failure_app. unfold delete_fetched.
  pose proof (for_each_call_result emb edge_delete EntityEdge_delete es d
                (fun _ => eq_refl)) as H1.
  assert (Hd1 : driver_after
                  (for_each es
                     (fun edge => call (edge_delete edge)
                                    (EntityEdge_delete edge)) d)
                = replay emb
                    (trace (for_each es
                              (fun edge => call (edge_delete edge)
                                             (EntityEdge_delete edge)) d)) d).
  { apply for_each_tracks. intros. now apply call_tracks. }
  destruct (first_failure emb (map edge_delete es) d) as [e|] eqn:F1.
  { now rewrite (bind_run_raise _ _ _ _ H1). }
  destruct (for_each_call_clean emb edge_delete EntityEdge_delete es d
              (fun _ => eq_refl) F1) as [_ Ht1].
  rewrite Ht1 in Hd1.
  rewrite (bind_run_ret _ _ _ _ H1). cbn [result]. rewrite Hd1.
  set (d1 := replay emb (map edge_delete es) d).
  pose proof (for_each_call_result emb node_delete EntityNode_delete ns d1
                (fun _ => eq_refl)) as H2.
  assert (Hd2 : driver_after
                  (for_each ns
                     (fun node => call (node_delete node)
                                    (EntityNode_delete node)) d1)
                = replay emb
                    (trace (for_each ns
                              (fun node => call (node_delete node)
                                             (EntityNode_delete node)) d1)) d1).
  { apply for_each_tracks. intros. now apply call_tracks. }
  destruct (first_failure emb (map node_delete ns) d1) as [e|] eqn:F2.
  { now rewrite (bind_run_raise _ _ _ _ H2). }
  destruct (for_each_call_clean emb node_delete EntityNode_delete ns d1
              (fun _ => eq_refl) F2) as [_ Ht2].
  rewrite Ht2 in Hd2.
  rewrite (bind_run_ret _ _ _ _ H2). cbn [result]. rewrite Hd2.
  apply (for_each_call_result emb episode_delete EpisodicNode_delete ps).
  reflexivity.
Qed.

(** ** Group deletion *)

Lemma delete_group_rest_run (group_id : string) (es : list EntityEdge)
    (d : Driver) :
  delete_group_rest group_id es d =
  let r2 := EntityNode_get_by_group_ids [group_id] d in
  match r2.1 with
  | inl e => mkOutcome (inl (Library e)) r2.2 [node_get_by_group_ids [group_id]]
  | inr ns =>
      let r3 := EpisodicNode_get_by_group_ids [group_id] r2.2 in
      match r3.1 with
      | inl e =>
          mkOutcome (inl (Library e)) r3.2
            [node_get_by_group_ids [group_id];
             episode_get_by_group_ids [group_id]]
      | inr ps =>
          let o4 := delete_fetched es ns ps r3.2 in
          mkOutcome (result o4) (driver_after o4)
            (node_get_by_group_ids [group_id]
             :: episode_get_by_group_ids [group_id] :: trace o4)
      end
  end.
Proof.
  unfold delete_group_rest. rewrite bind_call_run. cbv zeta.
  destruct (EntityNode_get_by_group_ids [group_id] d).1 as [e|ns];
    [reflexivity|].
  rewrite bind_call_run.
  now destruct (EpisodicNode_get_by_group_ids [group_id] _).1.
Qed.

Lemma delete_fetched_no_edges (ns : list EntityNode) (ps : list EpisodicNode)
    (d : Driver) :
  Forall (fun ev => phase ev <> 1) (trace (delete_fetched [] ns ps d)).
Proof.
  destruct (delete_fetched_run [] ns ps d)
    as (es' & ns' & ps' & more & Ht & Hfull & _ & _).
  cbv zeta in Ht, Hfull. rewrite Ht in *.
  assert (es' = []) as ->.
  { unfold deletions in Hfull. destruct es' as [|x es']; [reflexivity|].
    destruct ns, ps; discriminate. }
  unfold deletions. apply Forall_app. split; [constructor|].
  apply Forall_app. split.
  - clear. induction ns'; simpl; constructor; simpl; auto.
  - clear. induction ps'; simpl; constructor; simpl; auto.
Qed.

(** C4, as amended.  When the edge lookup raises the library's
    no-edges-found error, [delete_group] does not fail on that account: it
    logs a warning, fetches the nodes next, and deletes no edge.  When the
    node and episode lookups return and none of the deletions raises, it
    returns, having deleted every fetched node and then every fetched
    episode.  An error raised by the node lookup, by the episode lookup or
    by a deletion is the outcome of [delete_group].  In every case the
    database it leaves is the one its recorded library calls produce,
    made in the order recorded. *)
Theorem delete_group_without_edges (self : ZepGraphiti) (group_id : string)
    (d : Driver) (e : GraphitiError) :
  (EntityEdge_get_by_group_ids [group_id] d).1 = inl e ->
  error_class e = GroupsEdgesNotFoundError ->
  let o := delete_group self group_id d in
  let d1 := (EntityEdge_get_by_group_ids [group_id] d).2 in
  (exists tr,
     trace o = edge_get_by_group_ids [group_id]
               :: logger_warning ("No edges found for group " ++ group_id)
               :: node_get_by_group_ids [group_id] :: tr) /\
  Forall (fun ev => phase ev <> 1) (trace o) /\
  driver_after o = replay (embedder self) (trace o) d /\
  (forall ns ps,
     (EntityNode_get_by_group_ids [group_id] d1).1 = inr ns ->
     let d2 := (EntityNode_get_by_group_ids [group_id] d1).2 in
     (EpisodicNode_get_by_group_ids [group_id] d2).1 = inr ps ->
     let d3 := (EpisodicNode_get_by_group_ids [group_id] d2).2 in
     result o =
       match first_failure (embedder self)
               (map node_delete ns ++ map episode_delete ps) d3 with
       | Some e' => inl (Library e')
       | None => inr tt
       end /\
     (first_failure (embedder self)
        (map node_delete ns ++ map episode_delete ps) d3 = None ->
     trace o = ([edge_get_by_group_ids [group_id];
                 logger_warning ("No edges found for group " ++ group_id);
                 node_get_by_group_ids [group_id];
                 episode_get_by_group_ids [group_id]]
                ++ map node_delete ns ++ map episode_delete ps)%list /\
     driver_after o
     = replay (embedder self) (map node_delete ns ++ map episode_delete ps) d3)) /\
  (forall e',
     (EntityNode_get_by_group_ids [group_id] d1).1 = inl e' ->
     result o = inl (Library e')) /\
  (forall ns e',
     (EntityNode_get_by_group_ids [group_id] d1).1 = inr ns ->
     (EpisodicNode_get_by_group_ids [group_id]
        (EntityNode_get_by_group_ids [group_id] d1).2).1 = inl e' ->
     result o = inl (Library e')).
Proof.
  intros He Hcls o d1.
  assert (Hf : fetch_group_edges group_id d
               = mkOutcome (inr []) d1
                   [edge_get_by_group_ids [group_id];
                    logger_warning ("No edges found for group " ++ group_id)]).
  { rewrite fetch_group_edges_run. cbv zeta. rewrite He.
    now rewrite decide_True. }
  set (rest := delete_group_rest group_id [] d1).
  assert (Ho : o = mkOutcome (result rest) (driver_after rest)
                     (edge_get_by_group_ids [group_id]
                      :: logger_warning ("No edges found for group " ++ group_id)
                      :: trace rest)).
  { subst o. rewrite delete_group_unfold. unfold bind. now rewrite Hf. }
  pose proof (delete_group_rest_run group_id [] d1) as Hrest.
  fold rest in Hrest. cbv zeta in Hrest.
  split; [|split; [|split; [|split; [|split]]]].
  - rewrite Ho. cbn [trace]. rewrite Hrest.
    destruct (EntityNode_get_by_group_ids [group_id] d1).1; [eauto|].
    destruct (EpisodicNode_get_by_group_ids [group_id] _).1; eauto.
  - rewrite Ho. cbn [trace].
    constructor; [simpl; lia|]. constructor; [simpl; lia|].
    rewrite Hrest.
    destruct (EntityNode_get_by_group_ids [group_id] d1).1.
    { repeat constructor; simpl; lia. }
    destruct (EpisodicNode_get_by_group_ids [group_id] _).1.
    { repeat constructor; simpl; lia. }
    cbn [trace]. constructor; [simpl; lia|]. constructor; [simpl; lia|].
    apply delete_fetched_no_edges.
  - apply delete_group_tracks.
  - intros ns ps Hns d2 Hps d3.
    rewrite Ho, Hrest, Hns. fold d2. rewrite Hps. fold d3.
    cbn [result trace driver_after]. split.
    + apply (delete_fetched_result (embedder self) [] ns ps d3).
    + intros Hclean.
      destruct (delete_fetched_clean (embedder self) [] ns ps d3 Hclean)
        as (_ & Ht & Hd).
      rewrite Ht, Hd. auto.
  - intros e' Hns. now rewrite Ho, Hrest, Hns.
  - intros ns e' Hns Hps. now rewrite Ho, Hrest, Hns, Hps.
Qed.

(** C6.  In every run of [delete_group] the events come in phase order:
    whenever one event comes before another, its phase is not the later
    one, so no node or episode deletion comes before an edge deletion and
    no episode deletion before a node deletion; and the database the run
    leaves is the one its recorded library calls produce, made in that
    order.  With the three fetches done, the mutations of the run are a
    prefix of: the deletions of the fetched edges, then of the fetched
    nodes, then of the fetched episodes, and the database left is the one
    the fetches left with those mutations applied in that order; when the
    method returns they are all of them. *)
Theorem delete_group_deletes_in_order (self : ZepGraphiti) (group_id : string)
    (d : Driver) :
  let o := delete_group self group_id d in
  (forall l1 ev1 l2 ev2 l3,
     trace o = (l1 ++ ev1 :: l2 ++ ev2 :: l3)%list ->
     phase ev1 <= phase ev2) /\
  driver_after o = replay (embedder self) (trace o) d /\
  (forall es d1 tr ns ps,
     fetch_group_edges group_id d = mkOutcome (inr es) d1 tr ->
     (EntityNode_get_by_group_ids [group_id] d1).1 = inr ns ->
     (EpisodicNode_get_by_group_ids [group_id]
        (EntityNode_get_by_group_ids [group_id] d1).2).1 = inr ps ->
     let d3 :=
       (EpisodicNode_get_by_group_ids [group_id]
          (EntityNode_get_by_group_ids [group_id] d1).2).2 in
     mutations (trace o) `prefix_of` deletions es ns ps /\
     driver_after o = replay (embedder self) (mutations (trace o)) d3 /\
     (result o = inr tt ->
      mutations (trace o) = deletions es ns ps /\
      driver_after o = replay (embedder self) (deletions es ns ps) d3)).
Proof.
  intros o. split; [|split].
  - intros l1 ev1 l2 ev2 l3 Ht.
    destruct (delete_group_stages self group_id d)
      as (pre & es & ns & ps & Hst & Hp & _ & _).
    fold o in Hst.
    pose proof (deletions_sorted pre es ns ps Hp) as Hs.
    rewrite <- Hst, Ht, map_app in Hs.
    apply StronglySorted_app_1_r in Hs. simpl in Hs.
    apply StronglySorted_cons in Hs. destruct Hs as [Hall _].
    rewrite map_app in Hall. apply Forall_app in Hall.
    destruct Hall as [_ Hall]. simpl in Hall.
    now inversion Hall.
  - apply delete_group_tracks.
  - intros es d1 tr ns ps Hf Hns Hps d3.
    pose proof (delete_group_run self group_id d) as Hrun.
    cbv zeta in Hrun. fold o in Hrun.
    pose proof (fetch_group_edges_phase group_id d) as Hp.
    pose proof (fetch_group_edges_no_mutation group_id d) as Hm.
    rewrite Hf in Hrun, Hp, Hm. cbn [result driver_after trace] in Hrun, Hp, Hm.
    rewrite Hns, Hps in Hrun. fold d3 in Hrun.
    destruct (delete_fetched_run es ns ps d3)
      as (es' & ns' & ps' & more & Ht4 & Hfull & Hok & _).
    cbv zeta in Ht4, Hfull, Hok.
    assert (Hmut : mutations (trace o) = trace (delete_fetched es ns ps d3)).
    { rewrite Hrun. cbn [trace]. rewrite Ht4, app_assoc.
      apply mutations_of_run.
      - apply Forall_app. split; [exact Hp | repeat constructor].
      - apply Forall_app. split; [exact Hm | repeat constructor]. }
    assert (Hdb : driver_after o
                  = replay (embedder self) (mutations (trace o)) d3).
    { rewrite Hmut, Hrun. cbn [driver_after]. apply delete_fetched_tracks. }
    split; [|split].
    + rewrite Hmut. exists more. exact Hfull.
    + exact Hdb.
    + intros Hr. rewrite Hrun in Hr. cbn [result] in Hr.
      rewrite (Hok Hr), app_nil_r in Hfull.
      assert (Hall : mutations (trace o) = deletions es ns ps)
        by (rewrite Hmut; now symmetry).
      split; [exact Hall|]. now rewrite <- Hall.
Qed.

(** C8.  [delete_group] catches nothing but the no-edges-found error of
    the edge lookup.  Any other error of the edge lookup, and any error of
    the node lookup or of the episode lookup, a not-found error included,
    is the outcome of [delete_group] as the library raised it, with nothing
    deleted; and [delete_group] never raises an [HTTPException]. *)
Theorem delete_group_lets_fetch_errors_through (self : ZepGraphiti)
    (group_id : string) (d : Driver) :
  let o := delete_group self group_id d in
  let r1 := EntityEdge_get_by_group_ids [group_id] d in
  let r2 := EntityNode_get_by_group_ids [group_id] r1.2 in
  let r3 := EpisodicNode_get_by_group_ids [group_id] r2.2 in
  (forall e,
     r1.1 = inl e -> error_class e <> GroupsEdgesNotFoundError ->
     result o = inl (Library e) /\ mutations (trace o) = []) /\
  (forall e,
     edge_fetch_passes r1.1 -> r2.1 = inl e ->
     result o = inl (Library e) /\ mutations (trace o) = []) /\
  (forall ns e,
     edge_fetch_passes r1.1 -> r2.1 = inr ns -> r3.1 = inl e ->
     result o = inl (Library e) /\ mutations (trace o) = []) /\
  raised_http (result o) = false.
Proof.
  intros o r1 r2 r3.
  pose proof (delete_group_run self group_id d) as Hrun.
  cbv zeta in Hrun. fold o in Hrun.
  pose proof (fetch_group_edges_no_mutation group_id d) as Hm.
  pose proof (fetch_group_edges_driver group_id d) as Hd.
  pose proof (fetch_group_edges_run group_id d) as Hf.
  cbv zeta in Hf. fold r1 in Hf, Hd.
  assert (Hnil : forall (pre : list Event) (evs : list Event),
            Forall (fun ev => is_mutation ev = false) pre ->
            Forall (fun ev => is_mutation ev = false) evs ->
            mutations (pre ++ evs) = []).
  { intros pre evs H1 H2. unfold mutations.
    assert (H : Forall (fun ev => is_mutation ev = false) (pre ++ evs))
      by (apply Forall_app; auto).
    induction H as [|ev l Hev _ IH]; simpl; [reflexivity|].
    now rewrite Hev. }
  assert (Hpass : forall A (x : A), edge_fetch_passes r1.1 ->
            exists es, result (fetch_group_edges group_id d) = inr es).
  { intros A _ Hp. rewrite Hf. destruct r1.1 as [e'|es]; simpl in Hp.
    - rewrite decide_True by exact Hp. eauto.
    - eauto. }
  assert (Hother : forall e,
            r1.1 = inl e -> error_class e <> GroupsEdgesNotFoundError ->
            o = mkOutcome (inl (Library e)) r1.2
                  [edge_get_by_group_ids [group_id]]).
  { intros e He Hcls. rewrite Hf, He in Hrun.
    now rewrite decide_False in Hrun by exact Hcls. }
  split; [|split; [|split]].
  - intros e He Hcls. now rewrite (Hother e He Hcls).
  - intros e Hp He. destruct (Hpass unit tt Hp) as [es Hes].
    rewrite Hes, Hd in Hrun. fold r2 in Hrun. rewrite He in Hrun.
    rewrite Hrun. cbn [result trace]. split; [reflexivity|].
    apply Hnil; [exact Hm | repeat constructor].
  - intros ns e Hp Hns He. destruct (Hpass unit tt Hp) as [es Hes].
    rewrite Hes, Hd in Hrun. fold r2 in Hrun. rewrite Hns in Hrun.
    fold r3 in Hrun. rewrite He in Hrun.
    rewrite Hrun. cbn [result trace]. split; [reflexivity|].
    apply Hnil; [exact Hm | repeat constructor].
  - apply delete_group_no_http.
Qed.

End DelegateProperties.

(** * The methods on a concrete graph *)

Section OnSample.

Import Sample.

Local Abbreviation lax := (library false).
Local Abbreviation strict := (library true).
Local Abbreviation deleted_edge := (edge_delete (lib := lax)).
Local Abbreviation deleted_node := (node_delete (lib := lax)).
Local Abbreviation deleted_episode := (episode_delete (lib := lax)).
Local Abbreviation fetched_edges := (edge_get_by_group_ids (lib := lax)).
Local Abbreviation fetched_nodes := (node_get_by_group_ids (lib := lax)).
Local Abbreviation fetched_episodes := (episode_get_by_group_ids (lib := lax)).

Lemma not_found_becomes_404_witness :
  not_found_failure (get_entity_edge (lib := lax) self "e9" graph)
    "edge e9 not found" /\
  not_found_failure (delete_entity_edge (lib := lax) self "e9" graph)
    "edge e9 not found" /\
  not_found_failure (delete_episodic_node (lib := lax) self "p9" graph)
    "node p9 not found".
Proof.
  destruct (not_found_becomes_404 (lib := lax) self "e9" graph) as [He _].
  destruct (not_found_becomes_404 (lib := lax) self "p9" graph) as [_ Hp].
  destruct (He (mkGraphitiError EdgeNotFoundError "edge e9 not found"))
    as [H1 H2]; [reflexivity | reflexivity |].
  pose proof (Hp (mkGraphitiError NodeNotFoundError "node p9 not found")
                eq_refl eq_refl) as H3.
  split; [|split]; eexists; [exact H1 | exact H2 | exact H3].
Defined.

Lemma delete_group_without_edges_witness :
  result (delete_group (lib := lax) self "g2" graph) = inr tt /\
  mutations (trace (delete_group (lib := lax) self "g2" graph))
  = [deleted_node (mkItem "n2" "g2"); deleted_node (mkItem "n3" "g2");
     deleted_episode (mkItem "p2" "g2")] /\
  driver_after (delete_group (lib := lax) self "g2" graph)
  = mkGraph true
      [mkItem "e1" "g1"; mkItem "e2" "g1"]
      [mkItem "n1" "g1"; mkItem "n4" "g4"]
      [mkItem "p1" "g1"; mkItem "p3" "g1"].
Proof.
  destruct (delete_group_without_edges (lib := lax) self "g2" graph
              (mkGraphitiError GroupsEdgesNotFoundError
                 "no edges found for group ids g2") eq_refl eq_refl)
    as (_ & _ & _ & H).
  destruct H as (H & _ & _).
  destruct (H [mkItem "n2" "g2"; mkItem "n3" "g2"] [mkItem "p2" "g2"]
              eq_refl eq_refl) as (Hr & Hrun).
  destruct (Hrun eq_refl) as (Ht & Hd).
  split; [exact Hr|]. split; [now rewrite Ht | now rewrite Hd].
Defined.

Lemma delete_group_deletes_in_order_witness :
  mutations (trace (delete_group (lib := lax) self "g1" graph))
  = [deleted_edge (mkItem "e1" "g1"); deleted_edge (mkItem "e2" "g1");
     deleted_node (mkItem "n1" "g1");
     deleted_episode (mkItem "p1" "g1"); deleted_episode (mkItem "p3" "g1")] /\
  phase (deleted_edge (mkItem "e2" "g1"))
    <= phase (deleted_node (mkItem "n1" "g1")) /\
  driver_after (delete_group (lib := lax) self "g1" graph)
  = mkGraph true
      []
      [mkItem "n2" "g2"; mkItem "n3" "g2"; mkItem "n4" "g4"]
      [mkItem "p2" "g2"].
Proof.
  destruct (delete_group_deletes_in_order (lib := lax) self "g1" graph)
    as (Hord & _ & Hall).
  destruct (Hall [mkItem "e1" "g1"; mkItem "e2" "g1"] graph
              [fetched_edges ["g1"]]
              [mkItem "n1" "g1"] [mkItem "p1" "g1"; mkItem "p3" "g1"]
              eq_refl eq_refl eq_refl) as (_ & _ & Heq).
  destruct (Heq eq_refl) as [Hm Hd].
  split; [exact Hm|]. split; [|now rewrite Hd].
  apply (Hord [fetched_edges ["g1"]; fetched_nodes ["g1"];
               fetched_episodes ["g1"];
               deleted_edge (mkItem "e1" "g1")]
           (deleted_edge (mkItem "e2" "g1")) []
           (deleted_node (mkItem "n1" "g1"))
           [deleted_episode (mkItem "p1" "g1");
            deleted_episode (mkItem "p3" "g1")]).
  reflexivity.
Defined.

(** C4 as stated fails: on a group without edges the edge lookup raises
    the no-edges-found error, the method goes on to delete the group's
    nodes, and when that deletion raises the method fails. *)
Lemma delete_group_without_edges_can_fail :
  (EntityEdge_get_by_group_ids (GraphitiCore := ReadOnly.library) ["g2"] graph).1
  = inl (mkGraphitiError GroupsEdgesNotFoundError
           "no edges found for group ids g2") /\
  result (delete_group (lib := ReadOnly.library) self "g2" graph)
  = inl (Library (mkGraphitiError OtherError "database is read-only")).
Proof. split; reflexivity. Qed.

Lemma delete_group_lets_fetch_errors_through_witness :
  result (delete_group (lib := lax) self "g1" unreachable_graph)
  = inl (Library (mkGraphitiError OtherError "connection refused")) /\
  result (delete_group (lib := strict) self "g3" graph)
  = inl (Library (mkGraphitiError NodeNotFoundError
                    "no nodes found for group ids g3")) /\
  result (delete_group (lib := strict) self "g4" graph)
  = inl (Library (mkGraphitiError NodeNotFoundError
                    "no episodes found for group ids g4")).
Proof.
  destruct (delete_group_lets_fetch_errors_through (lib := lax) self "g1"
              unreachable_graph) as (H1 & _).
  destruct (delete_group_lets_fetch_errors_through (lib := strict) self "g3"
              graph) as (_ & H2 & _).
  destruct (delete_group_lets_fetch_errors_through (lib := strict) self "g4"
              graph) as (_ & _ & H3 & _).
  split; [|split].
  - apply (H1 (mkGraphitiError OtherError "connection refused"));
      [reflexivity | discriminate].
  - apply (H2 (mkGraphitiError NodeNotFoundError
                 "no nodes found for group ids g3")); reflexivity.
  - apply (H3 [mkItem "n4" "g4"]
              (mkGraphitiError NodeNotFoundError
                 "no episodes found for group ids g4")); reflexivity.
Defined.

(** C7 as stated fails.  On a group without edges the edge lookup of
    [delete_group] raises [GroupsEdgesNotFoundError], and the method
    returns; with a library whose node lookup raises [NodeNotFoundError],
    [delete_group] raises that error itself.  Neither run ends in the
    not-found failure. *)
Lemma delete_group_does_not_map_not_found :
  (exists e,
     (EntityEdge_get_by_group_ids (GraphitiCore := lax) ["g2"] graph).1 = inl e /\
     error_class e = GroupsEdgesNotFoundError /\
     result (delete_group (lib := lax) self "g2" graph) = inr tt /\
     ~ not_found_failure (delete_group (lib := lax) self "g2" graph) (message e)) /\
  (exists e,
     (EntityNode_get_by_group_ids (GraphitiCore := strict) ["g3"] graph).1 = inl e /\
     error_class e = NodeNotFoundError /\
     result (delete_group (lib := strict) self "g3" graph) = inl (Library e) /\
     ~ not_found_failure (delete_group (lib := strict) self "g3" graph) (message e)).
Proof.
  split.
  - exists (mkGraphitiError GroupsEdgesNotFoundError
              "no edges found for group ids g2").
    repeat split. intros [cause H]. discriminate H.
  - exists (mkGraphitiError NodeNotFoundError "no nodes found for group ids g3").
    repeat split. intros [cause H]. discriminate H.
Qed.

End OnSample.

(** * Further properties of the delegate methods *)

Section CallSequences.

Context `{lib : GraphitiCore}.

(** A [try] block that looks a record up and then deletes it. *)
Lemma lookup_then_delete_run {A} (ev : Event) (lookup : LibCall Driver A)
    (mk : A -> Event) (del : A -> LibCall Driver unit) (cls : ErrorClass)
    (d : Driver) :
  try_except (bind (call ev lookup) (fun x => call (mk x) (del x)))
    cls raise_not_found d =
  match (lookup d).1 with
  | inl e => mkOutcome (inl (translate cls e)) (lookup d).2 [ev]
  | inr x =>
      mkOutcome
        (match (del x (lookup d).2).1 with
         | inl e => inl (translate cls e)
         | inr u => inr u
         end)
        (del x (lookup d).2).2 [ev; mk x]
  end.
Proof.
  unfold try_except. rewrite bind_call_run.
  destruct (lookup d).1 as [e|x].
  - cbn [result driver_after trace]. unfold translate, raise_not_found, raise.
    destruct (decide (error_class e = cls)); reflexivity.
  - cbv zeta. rewrite call_run. cbn [result driver_after trace].
    destruct (del x (lookup d).2).1 as [e|u]; [|reflexivity].
    unfold translate, raise_not_found, raise.
    destruct (decide (error_class e = cls)); reflexivity.
Qed.

Lemma translate_http (cls : ErrorClass) (e c : GraphitiError) (s : Z)
    (m : string) :
  translate cls e = HTTPException s m c ->
  s = 404%Z /\ m = message c /\ error_class c = cls /\ e = c.
Proof.
  unfold translate. destruct (decide (error_class e = cls)) as [Hc|Hc].
  - intros [= <- <- <-]. auto.
  - discriminate.
Qed.

(** X1.  [save_entity_node] embeds before it saves: when the embedding call
    raises, that error is the outcome and nothing has been saved; when the
    method returns a node, it is the embedded node and its save is the one
    mutation of the run; in no case is there a mutation other than that
    save. *)
Theorem save_entity_node_embeds_then_saves (self : ZepGraphiti)
    (name uuid group_id summary : string) (d : Driver) :
  let new_node := EntityNode_new name uuid group_id summary in
  let r := EntityNode_generate_name_embedding new_node (embedder self) d in
  let o := save_entity_node self name uuid group_id summary d in
  (forall e, r.1 = inl e ->
     result o = inl (Library e) /\ mutations (trace o) = [] /\
     driver_after o = r.2) /\
  (forall node, result o = inr node ->
     r.1 = inr node /\ (EntityNode_save node r.2).1 = inr tt /\
     trace o = [node_generate_name_embedding new_node; node_save node] /\
     driver_after o = (EntityNode_save node r.2).2) /\
  (forall ev, ev ∈ mutations (trace o) ->
     exists node, r.1 = inr node /\ ev = node_save node).
Proof.
  intros new_node r o.
  assert (Ho : o =
            match r.1 with
            | inl e => mkOutcome (inl (Library e)) r.2
                         [node_generate_name_embedding new_node]
            | inr node =>
                mkOutcome
                  (match (EntityNode_save node r.2).1 with
                   | inl e => inl (Library e)
                   | inr _ => inr node
                   end)
                  (EntityNode_save node r.2).2
                  [node_generate_name_embedding new_node; node_save node]
            end).
  { subst o. unfold save_entity_node. fold new_node. rewrite bind_call_run.
    fold r. destruct r.1 as [e|node]; [reflexivity|].
    cbv zeta. rewrite bind_call_run.
    now destruct (EntityNode_save node r.2).1. }
  rewrite Ho. split; [|split].
  - intros e He. rewrite He. auto.
  - intros node Hr. destruct r.1 as [e|node']; [discriminate|].
    cbn [result trace driver_after] in *.
    destruct (EntityNode_save node' r.2).1 as [e|[]] eqn:Hs; [discriminate|].
    injection Hr as <-. rewrite Hs. auto.
  - intros ev Hev. destruct r.1 as [e|node]; cbn [trace] in Hev.
    + inversion Hev.
    + exists node. split; [reflexivity|].
      unfold mutations in Hev. simpl in Hev.
      apply elem_of_cons in Hev as [Hev|Hev]; [exact Hev | inversion Hev].
Qed.

(** X2.  [get_entity_edge] only reads: whatever the outcome, its one
    library call is the lookup, it makes no mutation, and the database is
    as the lookup left it; when it returns, it returns the edge the lookup
    gave. *)
Theorem get_entity_edge_only_reads (self : ZepGraphiti) (uuid : string)
    (d : Driver) :
  let o := get_entity_edge self uuid d in
  trace o = [edge_get_by_uuid uuid] /\
  mutations (trace o) = [] /\
  driver_after o = (EntityEdge_get_by_uuid uuid d).2 /\
  (forall edge, result o = inr edge ->
     (EntityEdge_get_by_uuid uuid d).1 = inr edge).
Proof.
  intros o.
  assert (Ho : o =
            match (EntityEdge_get_by_uuid uuid d).1 with
            | inl e => mkOutcome (inl (translate EdgeNotFoundError e))
                         (EntityEdge_get_by_uuid uuid d).2
                         [edge_get_by_uuid uuid]
            | inr edge => mkOutcome (inr edge)
                            (EntityEdge_get_by_uuid uuid d).2
                            [edge_get_by_uuid uuid]
            end).
  { subst o. unfold get_entity_edge, try_except. rewrite bind_call_run.
    destruct (EntityEdge_get_by_uuid uuid d).1 as [e|edge]; [|reflexivity].
    cbn [result driver_after trace]. unfold translate, raise_not_found, raise.
    destruct (decide (error_class e = EdgeNotFoundError)); reflexivity. }
  rewrite Ho.
  destruct (EntityEdge_get_by_uuid uuid d).1 as [e|edge];
    repeat split; try discriminate.
  now intros edge' [= ->].
Qed.

(** X3.  [delete_entity_edge] deletes the edge its lookup gave and nothing
    else: when the lookup raises, no deletion is attempted and the
    database is as the lookup left it; when the lookup returns an edge,
    the one further call is the deletion of that edge. *)
Theorem delete_entity_edge_deletes_what_it_found (self : ZepGraphiti)
    (uuid : string) (d : Driver) :
  let o := delete_entity_edge self uuid d in
  let r := EntityEdge_get_by_uuid uuid d in
  (forall e, r.1 = inl e ->
     trace o = [edge_get_by_uuid uuid] /\ mutations (trace o) = [] /\
     driver_after o = r.2) /\
  (forall edge, r.1 = inr edge ->
     trace o = [edge_get_by_uuid uuid; edge_delete edge] /\
     driver_after o = (EntityEdge_delete edge r.2).2 /\
     (result o = inr tt <-> (EntityEdge_delete edge r.2).1 = inr tt)).
Proof.
  intros o r. subst o. unfold delete_entity_edge.
  rewrite lookup_then_delete_run. fold r. split.
  - intros e He. rewrite He. auto.
  - intros edge He. rewrite He. cbn [result trace driver_after].
    repeat split.
    + destruct (EntityEdge_delete edge r.2).1 as [e|[]]; [discriminate|auto].
    + now intros ->.
Qed.

(** X4.  [delete_episodic_node] deletes the episode its lookup gave and
    nothing else, in the same way. *)
Theorem delete_episodic_node_deletes_what_it_found (self : ZepGraphiti)
    (uuid : string) (d : Driver) :
  let o := delete_episodic_node self uuid d in
  let r := EpisodicNode_get_by_uuid uuid d in
  (forall e, r.1 = inl e ->
     trace o = [episode_get_by_uuid uuid] /\ mutations (trace o) = [] /\
     driver_after o = r.2) /\
  (forall episode, r.1 = inr episode ->
     trace o = [episode_get_by_uuid uuid; episode_delete episode] /\
     driver_after o = (EpisodicNode_delete episode r.2).2 /\
     (result o = inr tt <-> (EpisodicNode_delete episode r.2).1 = inr tt)).
Proof.
  intros o r. subst o. unfold delete_episodic_node.
  rewrite lookup_then_delete_run. fold r. split.
  - intros e He. rewrite He. auto.
  - intros episode He. rewrite He. cbn [result trace driver_after].
    repeat split.
    + destruct (EpisodicNode_delete episode r.2).1 as [e|[]];
        [discriminate|auto].
    + now intros ->.
Qed.

(** X5.  A not-found failure is never made up: an [HTTPException] raised
    by [get_entity_edge], [delete_entity_edge] or [delete_episodic_node]
    has status 404, its detail is the message of its cause, and its cause
    is an error of the class the method names, raised by the lookup or by
    the deletion of that very run. *)
Theorem http_failure_has_library_cause (self : ZepGraphiti) (uuid : string)
    (d : Driver) (s : Z) (m : string) (c : GraphitiError) :
  (result (get_entity_edge self uuid d) = inl (HTTPException s m c) ->
   s = 404%Z /\ m = message c /\ error_class c = EdgeNotFoundError /\
   (EntityEdge_get_by_uuid uuid d).1 = inl c) /\
  (result (delete_entity_edge self uuid d) = inl (HTTPException s m c) ->
   s = 404%Z /\ m = message c /\ error_class c = EdgeNotFoundError /\
   ((EntityEdge_get_by_uuid uuid d).1 = inl c \/
    exists edge,
      (EntityEdge_get_by_uuid uuid d).1 = inr edge /\
      (EntityEdge_delete edge (EntityEdge_get_by_uuid uuid d).2).1 = inl c)) /\
  (result (delete_episodic_node self uuid d) = inl (HTTPException s m c) ->
   s = 404%Z /\ m = message c /\ error_class c = NodeNotFoundError /\
   ((EpisodicNode_get_by_uuid uuid d).1 = inl c \/
    exists episode,
      (EpisodicNode_get_by_uuid uuid d).1 = inr episode /\
      (EpisodicNode_delete episode (EpisodicNode_get_by_uuid uuid d).2).1
        = inl c)).
Proof.
  split; [|split].
  - rewrite get_entity_edge_result.
    destruct (EntityEdge_get_by_uuid uuid d).1 as [e|edge]; [|discriminate].
    intros [= H]. apply translate_http in H as (-> & -> & Hc & ->). auto.
  - rewrite delete_entity_edge_result. cbv zeta.
    destruct (EntityEdge_get_by_uuid uuid d).1 as [e|edge].
    + intros [= H]. apply translate_http in H as (-> & -> & Hc & ->). auto.
    + destruct (EntityEdge_delete edge _).1 as [e|u] eqn:Hdel; [|discriminate].
      intros [= H]. apply translate_http in H as (-> & -> & Hc & ->).
      repeat split; auto. right. eauto.
  - rewrite delete_episodic_node_result. cbv zeta.
    destruct (EpisodicNode_get_by_uuid uuid d).1 as [e|episode].
    + intros [= H]. apply translate_http in H as (-> & -> & Hc & ->). auto.
    + destruct (EpisodicNode_delete episode _).1 as [e|u] eqn:Hdel;
        [|discriminate].
      intros [= H]. apply translate_http in H as (-> & -> & Hc & ->).
      repeat split; auto. right. eauto.
Qed.

End CallSequences.

(** * Group deletion: failure part-way and the full run *)

Section GroupDeletion.

Context `{lib : GraphitiCore}.

(** A loop over a list that holds an element whose call always raises does
    not return. *)
Lemma for_each_call_stuck {A} (mk : A -> Event) (f : A -> LibCall Driver unit)
    (xs : list A) (x : A) (d : Driver) :
  x ∈ xs ->
  (forall d', exists e, (f x d').1 = inl e) ->
  exists e, result (for_each xs (fun y => call (mk y) (f y)) d) = inl (Library e).
Proof.
  intros Hin Hx. revert d.
  induction xs as [|a xs IH]; intros d; [inversion Hin|].
  simpl. unfold bind. rewrite call_run. cbn [result driver_after trace].
  apply elem_of_cons in Hin as [<-|Hin].
  - destruct (Hx d) as [e ->]. eauto.
  - destruct (f a d).1 as [e|u]; [eauto|].
    cbn [result]. apply IH. exact Hin.
Qed.

(** The run of [delete_group] once the three fetches have returned. *)
Lemma delete_group_after_fetches (self : ZepGraphiti) (group_id : string)
    (d : Driver) (es : list EntityEdge) (d1 : Driver) (tr : list Event)
    (ns : list EntityNode) (ps : list EpisodicNode) :
  fetch_group_edges group_id d = mkOutcome (inr es) d1 tr ->
  (EntityNode_get_by_group_ids [group_id] d1).1 = inr ns ->
  (EpisodicNode_get_by_group_ids [group_id]
     (EntityNode_get_by_group_ids [group_id] d1).2).1 = inr ps ->
  let o4 :=
    delete_fetched es ns ps
      (EpisodicNode_get_by_group_ids [group_id]
         (EntityNode_get_by_group_ids [group_id] d1).2).2 in
  delete_group self group_id d =
  mkOutcome (result o4) (driver_after o4)
    (tr ++ [node_get_by_group_ids [group_id];
            episode_get_by_group_ids [group_id]] ++ trace o4) /\
  Forall (fun ev => phase ev = 0) tr /\
  Forall (fun ev => is_mutation ev = false) tr.
Proof.
  intros Hf Hns Hps o4.
  pose proof (delete_group_run self group_id d) as Hrun. cbv zeta in Hrun.
  pose proof (fetch_group_edges_phase group_id d) as Hp.
  pose proof (fetch_group_edges_no_mutation group_id d) as Hm.
  rewrite Hf in Hrun, Hp, Hm. cbn [result driver_after trace] in Hrun, Hp, Hm.
  rewrite Hns, Hps in Hrun. auto.
Qed.

(** X6.  [delete_group] does not recover from a failed deletion.  With the
    three fetches done, if one of the fetched edges cannot be deleted,
    [delete_group] raises a library error, the edges deleted are a prefix
    of the fetched ones, and no node and no episode is deleted. *)
Theorem delete_group_stops_at_failed_edge (self : ZepGraphiti)
    (group_id : string) (d : Driver) (es : list EntityEdge) (d1 : Driver)
    (tr : list Event) (ns : list EntityNode) (ps : list EpisodicNode)
    (x : EntityEdge) :
  fetch_group_edges group_id d = mkOutcome (inr es) d1 tr ->
  (EntityNode_get_by_group_ids [group_id] d1).1 = inr ns ->
  (EpisodicNode_get_by_group_ids [group_id]
     (EntityNode_get_by_group_ids [group_id] d1).2).1 = inr ps ->
  x ∈ es ->
  (forall d', exists e, (EntityEdge_delete x d').1 = inl e) ->
  let o := delete_group self group_id d in
  (exists e, result o = inl (Library e)) /\
  (exists es', es' `prefix_of` es /\ mutations (trace o) = map edge_delete es') /\
  Forall (fun ev => phase ev <= 1) (trace o).
Proof.
  intros Hf Hns Hps Hin Hx o.
  destruct (delete_group_after_fetches self group_id d es d1 tr ns ps Hf Hns Hps)
    as (Ho & Hp & Hm).
  cbv zeta in Ho. fold o in Ho.
  set (d3 := (EpisodicNode_get_by_group_ids [group_id] _).2) in Ho.
  destruct (for_each_call_stuck edge_delete EntityEdge_delete es x d3 Hin Hx)
    as [e He].
  destruct (for_each_call_run edge_delete EntityEdge_delete es d3)
    as (ys & zs & Hes & Ht & _ & _).
  cbv zeta in Ht.
  assert (H4 : delete_fetched es ns ps d3
               = mkOutcome (inl (Library e))
                   (driver_after
                      (for_each es
                         (fun edge => call (edge_delete edge)
                                        (EntityEdge_delete edge)) d3))
                   (map edge_delete ys)).
  { unfold delete_fetched. rewrite (bind_run_raise _ _ _ _ He). now rewrite Ht. }
  rewrite H4 in Ho. cbn [result driver_after trace] in Ho.
  rewrite Ho. cbn [result trace]. split; [eauto|]. split.
  - exists ys. split; [exists zs; exact Hes|].
    rewrite app_assoc.
    pose proof (mutations_of_run
                  (tr ++ [node_get_by_group_ids [group_id];
                          episode_get_by_group_ids [group_id]]) ys [] []) as Hmut.
    unfold deletions in Hmut. simpl in Hmut. rewrite app_nil_r in Hmut.
    apply Hmut; apply Forall_app; split; auto; repeat constructor.
  - apply Forall_app. split.
    + eapply Forall_impl; [exact Hp|]. simpl. intros ev ->. lia.
    + repeat (constructor; [simpl; lia|]).
      clear. induction ys; simpl; constructor; simpl; auto.
Qed.

(** X7.  When the three fetches return and none of the deletions raises
    in this run, each made against the database the one before it left,
    [delete_group] returns; its calls after the edge fetch are the node
    fetch, the episode fetch, then the deletion of every fetched edge, of
    every fetched node and of every fetched episode, in the order fetched;
    and the database it leaves is the one the fetches left with those
    deletions applied in that order. *)
Theorem delete_group_deletes_everything (self : ZepGraphiti)
    (group_id : string) (d : Driver) (es : list EntityEdge) (d1 : Driver)
    (tr : list Event) (ns : list EntityNode) (ps : list EpisodicNode) :
  fetch_group_edges group_id d = mkOutcome (inr es) d1 tr ->
  (EntityNode_get_by_group_ids [group_id] d1).1 = inr ns ->
  (EpisodicNode_get_by_group_ids [group_id]
     (EntityNode_get_by_group_ids [group_id] d1).2).1 = inr ps ->
  let d3 :=
    (EpisodicNode_get_by_group_ids [group_id]
       (EntityNode_get_by_group_ids [group_id] d1).2).2 in
  first_failure (embedder self) (deletions es ns ps) d3 = None ->
  let o := delete_group self group_id d in
  result o = inr tt /\
  trace o = (tr ++ [node_get_by_group_ids [group_id];
                    episode_get_by_group_ids [group_id]]
               ++ deletions es ns ps)%list /\
  mutations (trace o) = deletions es ns ps /\
  driver_after o = replay (embedder self) (deletions es ns ps) d3.
Proof.
  intros Hf Hns Hps d3 Hclean o.
  destruct (delete_group_after_fetches self group_id d es d1 tr ns ps Hf Hns Hps)
    as (Ho & Hph & Hm).
  cbv zeta in Ho. fold o d3 in Ho.
  destruct (delete_fetched_clean (embedder self) es ns ps d3 Hclean)
    as (Hr & Ht & Hd).
  rewrite Hr, Ht, Hd in Ho. rewrite Ho. cbn [result trace driver_after].
  split; [reflexivity|]. split; [reflexivity|]. split; [|reflexivity].
  rewrite app_assoc. apply mutations_of_run;
    apply Forall_app; split; auto; repeat constructor.
Qed.

(** X15.  Deleting a group that has nothing is not an error.  When the
    edge lookup raises the no-edges-found error and the node and episode
    lookups return empty lists, [delete_group] returns, has deleted
    nothing, and leaves the database as the last lookup left it. *)
Theorem delete_group_of_empty_group (self : ZepGraphiti) (group_id : string)
    (d : Driver) (e : GraphitiError) :
  (EntityEdge_get_by_group_ids [group_id] d).1 = inl e ->
  error_class e = GroupsEdgesNotFoundError ->
  let d1 := (EntityEdge_get_by_group_ids [group_id] d).2 in
  let d2 := (EntityNode_get_by_group_ids [group_id] d1).2 in
  (EntityNode_get_by_group_ids [group_id] d1).1 = inr [] ->
  (EpisodicNode_get_by_group_ids [group_id] d2).1 = inr [] ->
  let o := delete_group self group_id d in
  result o = inr tt /\
  mutations (trace o) = [] /\
  driver_after o = (EpisodicNode_get_by_group_ids [group_id] d2).2.
Proof.
  intros He Hcls d1 d2 Hns Hps o.
  assert (Hf : fetch_group_edges group_id d
               = mkOutcome (inr []) d1
                   [edge_get_by_group_ids [group_id];
                    logger_warning ("No edges found for group " ++ group_id)]).
  { rewrite fetch_group_edges_run. cbv zeta. rewrite He.
    now rewrite decide_True. }
  destruct (delete_group_after_fetches self group_id d [] d1 _ [] [] Hf Hns Hps)
    as (Ho & _ & _).
  cbv zeta in Ho. fold o d2 in Ho. rewrite Ho. auto.
Qed.

End GroupDeletion.

(** * Further properties of the factory and the singleton *)

Section Lifecycles.

Variable Graphiti_init :
  string -> string -> string -> option LLMClient -> ZepGraphiti.
Variable Graphiti_raises : string -> string -> string -> option Raised.
Variable OpenAIEmbedder_raises : OpenAIEmbedderConfig -> option Raised.

Local Abbreviation create := (_create_configured_client Graphiti_init).
Local Abbreviation constructed s :=
  (ZepGraphiti_new Graphiti_init (neo4j_uri s) (neo4j_user s) (neo4j_password s)).
Local Abbreviation accessor :=
  (_get_shared_client Graphiti_init Graphiti_raises OpenAIEmbedder_raises).
Local Abbreviation run' :=
  (run Graphiti_init Graphiti_raises OpenAIEmbedder_raises).
Local Abbreviation step' :=
  (step Graphiti_init Graphiti_raises OpenAIEmbedder_raises).
Local Abbreviation created_once' := (created_once Graphiti_init).

(** X8.  The chat client follows the settings field by field: its base
    URL and API key are the configured ones, its model and its small model
    are both the configured model name, and a field whose setting is
    [None] keeps the value the constructor gave it; so do the connection
    fields. *)
Theorem chat_client_follows_settings (s : Settings) :
  let c := create s in
  let c0 := constructed s in
  base_url (config (llm_client c))
    = match openai_base_url s with
      | Some u => Some u
      | None => base_url (config (llm_client c0))
      end /\
  api_key (config (llm_client c))
    = match openai_api_key s with
      | Some k => Some k
      | None => api_key (config (llm_client c0))
      end /\
  model (llm_client c)
    = match model_name s with
      | Some m => Some m
      | None => model (llm_client c0)
      end /\
  small_model (config (llm_client c))
    = match model_name s with
      | Some m => Some m
      | None => small_model (config (llm_client c0))
      end /\
  uri c = uri c0 /\ user c = user c0 /\ password c = password c0.
Proof.
  unfold _create_configured_client.
  destruct (openai_base_url s), (openai_api_key s), (model_name s),
    (embedding_model_name s); repeat split.
Qed.

(** X9.  With none of the optional settings configured the factory
    returns the client exactly as the constructor built it. *)
Theorem unconfigured_client_is_constructed (s : Settings) :
  openai_base_url s = None -> openai_api_key s = None ->
  model_name s = None -> embedding_model_name s = None ->
  create s = constructed s.
Proof.
  intros H1 H2 H3 H4. unfold _create_configured_client.
  now rewrite H1, H2, H3, H4.
Qed.

(** ** Processes that started fresh *)

Lemma created_once_fresh (env : Raised + Settings) :
  created_once' (fresh_process env).
Proof. exists 0. reflexivity. Qed.

Lemma created_once_accessor (p : Process) :
  created_once' p -> created_once' (accessor p).2.
Proof.
  intros H. destruct (_shared_client p) as [c|] eqn:Hc.
  { now rewrite (accessor_filled Graphiti_init Graphiti_raises OpenAIEmbedder_raises p c Hc). }
  unfold created_once in H. rewrite Hc in H. destruct H as [k Hk].
  destruct (accessor p).1 as [e|c] eqn:Hret.
  - destruct (accessor_raises Graphiti_init Graphiti_raises OpenAIEmbedder_raises p e Hret) as [_ Hn].
    unfold created_once. rewrite Hn.
    rewrite (accessor_empty Graphiti_init Graphiti_raises OpenAIEmbedder_raises p Hc) in Hret |- *.
    destruct (environ p) as [e'|s].
    + exists (S k). simpl. now rewrite Hk, <- replicate_S_end.
    + cbv zeta in *.
      pose proof (factory_call_run Graphiti_init Graphiti_raises
                    OpenAIEmbedder_raises s (emit get_settings_call p))
        as (_ & _ & Hf & _).
      destruct (_create_configured_client_call _ _ _ s _).1 as [e'|c];
        [|discriminate].
      simpl. exists (S k). rewrite Hf. simpl.
      now rewrite Hk, <- replicate_S_end.
  - pose proof (accessor_fills Graphiti_init Graphiti_raises OpenAIEmbedder_raises p c Hret) as Hfill.
    destruct (accessor_creates Graphiti_init Graphiti_raises OpenAIEmbedder_raises p c Hc Hret) as (s & _ & Hl & Hh & He).
    unfold created_once. rewrite Hfill. split.
    + rewrite Hh, length_app, Hl. simpl. lia.
    + exists s, (S k), 0. split.
      * rewrite Hh, Hl. now apply list_lookup_middle.
      * rewrite He, Hk, replicate_S_end, <- app_assoc. reflexivity.
Qed.

Lemma created_once_build (p : Process) (c : loc) :
  created_once' p -> _shared_client p = Some c ->
  created_once' (emit (build_indices_and_constraints c) p).
Proof.
  unfold created_once. simpl. intros H Hc. rewrite Hc in *.
  destruct H as (Hl & env0 & k & n & Hh & He). split; [exact Hl|].
  exists env0, k, (S n). split; [exact Hh|].
  rewrite He, replicate_S_end, <- app_assoc. reflexivity.
Qed.

Lemma created_once_step (p : Process) (op : Op) :
  created_once' p -> created_once' (step' p op).
Proof.
  intros H. pose proof (created_once_accessor p H) as H'.
  destruct op as [|s|s built|env]; simpl.
  - exact H'.
  - unfold get_graphiti. now destruct (accessor p).
  - unfold initialize_graphiti.
    pose proof (accessor_fills Graphiti_init Graphiti_raises OpenAIEmbedder_raises p) as Hf.
    destruct (accessor p) as [[e|c] p1]; simpl in *; [exact H'|].
    apply created_once_build; [exact H' | now apply Hf].
  - exact H.
Qed.

Lemma created_once_run (ops : list Op) (p : Process) :
  created_once' p -> created_once' (run' ops p).
Proof.
  revert p. induction ops as [|op ops IH]; intros p H; [exact H|].
  unfold run in *. simpl. apply IH. now apply created_once_step.
Qed.

(** X10.  The shared client is the last client the process allocates.  In
    a process that started fresh, a filled slot refers to the last object
    of the heap, and no later operation allocates another; while the slot
    is empty nothing has been logged as created and no index has been
    built. *)
Theorem shared_client_is_last_allocated (env : Raised + Settings)
    (ops ops' : list Op) :
  let p := run' ops (fresh_process env) in
  (forall c, _shared_client p = Some c ->
     List.length (heap p) = S c /\ heap (run' ops' p) = heap p) /\
  (_shared_client p = None -> creation_records p = 0 /\ build_calls p = 0).
Proof.
  intros p.
  pose proof (created_once_run ops _ (created_once_fresh env)) as H.
  fold p in H. unfold created_once in H. split.
  - intros c Hc. rewrite Hc in H. destruct H as [Hl _]. split; [now symmetry|].
    now destruct (run_filled Graphiti_init Graphiti_raises OpenAIEmbedder_raises ops' p c Hc) as (_ & Hh & _).
  - intros Hc. rewrite Hc in H. destruct H as [k Hk].
    unfold creation_records, build_calls. rewrite Hk.
    clear. induction k; simpl; auto.
Qed.

Lemma filter_reads (f : Effect -> bool) (k : nat) :
  f get_settings_call = false ->
  List.filter f (replicate k get_settings_call) = [].
Proof. intros Hf. induction k; simpl; [reflexivity|]. now rewrite Hf. Qed.

(** X11.  The creation is logged once, with what was configured.  In a
    process that started fresh the logger has received at most one
    creation record; when the slot is filled it has received exactly one,
    and the model and embedding names in it are those of the settings the
    shared client was built from. *)
Theorem creation_is_logged_once (env : Raised + Settings) (ops : list Op) :
  let p := run' ops (fresh_process env) in
  creation_records p <= 1 /\
  (forall c, _shared_client p = Some c ->
     creation_records p = 1 /\
     exists env0,
       heap p !! c = Some (create env0) /\
       logger_info "Created shared Graphiti client (model=%s, embedding=%s)"
         (model_name env0) (embedding_model_name env0) ∈ effects p).
Proof.
  intros p.
  pose proof (created_once_run ops _ (created_once_fresh env)) as H.
  fold p in H. unfold created_once in H.
  assert (Hrep : forall n c0,
            List.filter is_logger_info
              (replicate n (build_indices_and_constraints c0)) = []).
  { induction n; simpl; auto. }
  unfold creation_records.
  destruct (_shared_client p) as [c|].
  - destruct H as (_ & env0 & k & n & Hh & He). rewrite He.
    rewrite List.filter_app, filter_reads by reflexivity. simpl.
    rewrite Hrep. simpl. split; [lia|].
    intros c' [= <-]. split; [reflexivity|].
    exists env0. split; [exact Hh|].
    apply elem_of_app. right. apply elem_of_cons. now left.
  - destruct H as [k Hk]. rewrite Hk, filter_reads by reflexivity.
    simpl. split; [lia|]. discriminate.
Qed.

(** X12.  Indices are only ever built on the singleton: every
    [build_indices_and_constraints] call a process that started fresh has
    made was made on the client the slot refers to. *)
Theorem indices_built_on_singleton (env : Raised + Settings) (ops : list Op)
    (c : loc) :
  let p := run' ops (fresh_process env) in
  build_indices_and_constraints c ∈ effects p ->
  _shared_client p = Some c.
Proof.
  intros p Hin.
  pose proof (created_once_run ops _ (created_once_fresh env)) as H.
  fold p in H. unfold created_once in H.
  destruct (_shared_client p) as [c0|].
  - destruct H as (_ & env0 & k & n & _ & He). rewrite He in Hin.
    apply elem_of_app in Hin as [Hin|Hin].
    { apply elem_of_replicate_inv in Hin. discriminate. }
    apply elem_of_cons in Hin as [Hin|Hin]; [discriminate|].
    apply elem_of_replicate_inv in Hin. now injection Hin as ->.
  - destruct H as [k Hk]. rewrite Hk in Hin.
    apply elem_of_replicate_inv in Hin. discriminate.
Qed.

Lemma build_calls_emit (e : Effect) (p : Process) :
  build_calls (emit e p) = build_calls p + (if is_build e then 1 else 0).
Proof.
  unfold build_calls, emit. simpl.
  rewrite List.filter_app, length_app. simpl.
  destruct (is_build e); reflexivity.
Qed.

Lemma build_calls_accessor (p : Process) :
  build_calls (accessor p).2 = build_calls p.
Proof.
  destruct (_shared_client p) as [c0|] eqn:Hc.
  { now rewrite (accessor_filled Graphiti_init Graphiti_raises OpenAIEmbedder_raises p c0 Hc). }
  rewrite (accessor_empty Graphiti_init Graphiti_raises OpenAIEmbedder_raises p Hc).
  pose proof (build_calls_emit get_settings_call p) as He. simpl in He.
  destruct (environ p) as [e|s]; [simpl; lia|].
  cbv zeta.
  pose proof (factory_call_run Graphiti_init Graphiti_raises
                OpenAIEmbedder_raises s (emit get_settings_call p))
    as (_ & _ & Hf & _).
  assert (Hb : build_calls
                 (_create_configured_client_call Graphiti_init Graphiti_raises
                    OpenAIEmbedder_raises s (emit get_settings_call p)).2
               = build_calls p).
  { unfold build_calls in *. rewrite Hf. lia. }
  destruct (_create_configured_client_call _ _ _ s _).1 as [e|c1]; simpl;
    [exact Hb|].
  rewrite build_calls_emit. simpl. unfold build_calls in *. simpl. lia.
Qed.

Lemma build_calls_step (p : Process) (op : Op) :
  build_calls (step' p op) <= build_calls p + (if is_initialize op then 1 else 0)
  /\ (_shared_client p <> None ->
      build_calls (step' p op)
      = build_calls p + (if is_initialize op then 1 else 0)).
Proof.
  pose proof (build_calls_accessor p) as Ha.
  destruct op as [|s|s built|env]; simpl.
  - lia.
  - unfold get_graphiti. destruct (accessor p). simpl in *. lia.
  - unfold initialize_graphiti.
    destruct (_shared_client p) as [c0|] eqn:Hc.
    + rewrite (accessor_filled Graphiti_init Graphiti_raises OpenAIEmbedder_raises p c0 Hc). simpl.
      rewrite build_calls_emit. simpl. lia.
    + destruct (accessor p) as [[e|c] p1]; simpl in *.
      * split; [lia | congruence].
      * rewrite build_calls_emit. simpl. split; [lia | congruence].
  - unfold build_calls. simpl. lia.
Qed.

(** X13.  Only [initialize_graphiti] builds indices, and at most once per
    call: over any sequence of operations on any process, the number of
    [build_indices_and_constraints] calls grows by at most the number of
    [initialize_graphiti] calls in the sequence, and by exactly that
    number when the slot was filled at the start. *)
Theorem indices_built_once_per_initialize (p : Process) (ops : list Op) :
  build_calls (run' ops p)
    <= build_calls p + List.length (List.filter is_initialize ops) /\
  (_shared_client p <> None ->
   build_calls (run' ops p)
   = build_calls p + List.length (List.filter is_initialize ops)).
Proof.
  revert p. induction ops as [|op ops IH]; intros p; simpl; [lia|].
  destruct (build_calls_step p op) as [Hle Heq].
  destruct (IH (step' p op)) as [IHle IHeq].
  unfold run in *. simpl. split.
  - destruct (is_initialize op); simpl in *; lia.
  - intros Hc. specialize (Heq Hc).
    destruct (_shared_client p) as [c|] eqn:Hp; [|congruence].
    destruct (step_filled Graphiti_init Graphiti_raises OpenAIEmbedder_raises p c op Hp) as (Hs & _ & _).
    assert (Hne : _shared_client (step' p op) <> None) by congruence.
    specialize (IHeq Hne).
    destruct (is_initialize op); simpl in *; lia.
Qed.

(** X14.  The singleton is built from the environment of its first
    access.  When a call of the accessor on an empty slot returns, there
    were settings to read, the client returned is the factory's client
    for those settings, and it stays that through every later operation,
    changes of the environment included. *)
Theorem client_built_from_first_environment (p : Process) (ops : list Op)
    (c : loc) :
  _shared_client p = None ->
  (accessor p).1 = inr c ->
  exists s,
    environ p = inr s /\
    heap (accessor p).2 !! c = Some (create s) /\
    heap (run' ops (accessor p).2) !! c = Some (create s).
Proof.
  intros Hc Hret.
  destruct (accessor_creates Graphiti_init Graphiti_raises OpenAIEmbedder_raises p c Hc Hret) as (s & Hs & Hloc & Hh & _).
  destruct (run_filled Graphiti_init Graphiti_raises OpenAIEmbedder_raises ops _ _ (accessor_fills Graphiti_init Graphiti_raises OpenAIEmbedder_raises p c Hret))
    as (_ & Hh' & _).
  assert (H : heap (accessor p).2 !! c = Some (create s)).
  { rewrite Hh, Hloc. now apply list_lookup_middle. }
  exists s. split; [exact Hs|]. split; [exact H|]. now rewrite Hh'.
Qed.

End Lifecycles.

(** * The further properties on concrete inputs *)

Section FurtherOnSample.

Import Sample.

Local Abbreviation lax := (library false).
Local Abbreviation read_only := ReadOnly.library.
Local Abbreviation e1 := (mkItem "e1" "g1").
Local Abbreviation e2 := (mkItem "e2" "g1").
Local Abbreviation n1 := (mkItem "n1" "g1").
Local Abbreviation p1 := (mkItem "p1" "g1").
Local Abbreviation p3 := (mkItem "p3" "g1").
Local Abbreviation bare :=
  (mkSettings "bolt://neo4j:7687" "neo4j" "secret" None None None None).
Local Abbreviation other :=
  (mkSettings "bolt://neo4j:7687" "neo4j" "secret" None (Some "sk-2")
     (Some "gpt-4.1") None).
Local Abbreviation busy :=
  [call_get_graphiti other; environ_changed (inr other);
   call_initialize_graphiti other None; call_get_shared_client;
   environ_changed Startup.invalid_environment;
   call_initialize_graphiti bare (Some (raised "database unavailable"))].
Local Abbreviation run_sample :=
  (run Graphiti_init Startup.Graphiti_raises Startup.OpenAIEmbedder_raises).
Local Abbreviation no_url :=
  (mkSettings "bolt://neo4j:7687" "neo4j" "secret" None None None
     (Some "nomic-embed-text")).
Local Abbreviation retried :=
  [call_get_shared_client; environ_changed (inr no_url);
   call_initialize_graphiti no_url None; environ_changed (inr settings);
   call_get_graphiti settings].

Lemma save_entity_node_embeds_then_saves_witness :
  result (save_entity_node (lib := read_only) ReadOnly.unconfigured
            "Alice" "n9" "g1" EmptyString graph)
  = inl (Library (mkGraphitiError OtherError "no API key for the embedder")) /\
  trace (save_entity_node (lib := lax) self "Alice" "n9" "g1" EmptyString graph)
  = [node_generate_name_embedding (lib := lax) (mkItem "n9" "g1");
     node_save (lib := lax) (mkItem "n9" "g1")] /\
  (exists node,
     node_save (lib := lax) (mkItem "n9" "g1") = node_save (lib := lax) node).
Proof.
  destruct (save_entity_node_embeds_then_saves (lib := read_only)
              ReadOnly.unconfigured "Alice" "n9" "g1" EmptyString graph)
    as (Hfail & _ & _).
  destruct (save_entity_node_embeds_then_saves (lib := lax)
              self "Alice" "n9" "g1" EmptyString graph)
    as (_ & Hok & Hmut).
  split; [|split].
  - exact (proj1 (Hfail (mkGraphitiError OtherError "no API key for the embedder")
                    eq_refl)).
  - destruct (Hok (mkItem "n9" "g1") eq_refl) as (_ & _ & Ht & _). exact Ht.
  - destruct (Hmut (node_save (lib := lax) (mkItem "n9" "g1")))
      as (node & _ & Hev); [constructor|].
    exists node. exact Hev.
Defined.

Lemma get_entity_edge_only_reads_witness :
  (EntityEdge_get_by_uuid (GraphitiCore := lax) "e1" graph).1 = inr e1.
Proof.
  destruct (get_entity_edge_only_reads (lib := lax) self "e1" graph)
    as (_ & _ & _ & H).
  exact (H e1 eq_refl).
Defined.

Lemma delete_entity_edge_deletes_what_it_found_witness :
  trace (delete_entity_edge (lib := lax) self "e9" graph)
  = [edge_get_by_uuid (lib := lax) "e9"] /\
  trace (delete_entity_edge (lib := lax) self "e1" graph)
  = [edge_get_by_uuid (lib := lax) "e1"; edge_delete (lib := lax) e1].
Proof.
  destruct (delete_entity_edge_deletes_what_it_found (lib := lax) self "e9" graph)
    as [Hmiss _].
  destruct (delete_entity_edge_deletes_what_it_found (lib := lax) self "e1" graph)
    as [_ Hhit].
  split.
  - exact (proj1 (Hmiss (mkGraphitiError EdgeNotFoundError "edge e9 not found")
                    eq_refl)).
  - exact (proj1 (Hhit e1 eq_refl)).
Defined.

Lemma delete_episodic_node_deletes_what_it_found_witness :
  trace (delete_episodic_node (lib := lax) self "p9" graph)
  = [episode_get_by_uuid (lib := lax) "p9"] /\
  trace (delete_episodic_node (lib := lax) self "p1" graph)
  = [episode_get_by_uuid (lib := lax) "p1"; episode_delete (lib := lax) p1].
Proof.
  destruct (delete_episodic_node_deletes_what_it_found (lib := lax) self "p9"
              graph) as [Hmiss _].
  destruct (delete_episodic_node_deletes_what_it_found (lib := lax) self "p1"
              graph) as [_ Hhit].
  split.
  - exact (proj1 (Hmiss (mkGraphitiError NodeNotFoundError "node p9 not found")
                    eq_refl)).
  - exact (proj1 (Hhit p1 eq_refl)).
Defined.

Lemma http_failure_has_library_cause_witness :
  (EntityEdge_get_by_uuid (GraphitiCore := lax) "e9" graph).1
  = inl (mkGraphitiError EdgeNotFoundError "edge e9 not found") /\
  (EpisodicNode_get_by_uuid (GraphitiCore := lax) "p9" graph).1
  = inl (mkGraphitiError NodeNotFoundError "node p9 not found").
Proof.
  destruct (http_failure_has_library_cause (lib := lax) self "e9" graph 404
              "edge e9 not found"
              (mkGraphitiError EdgeNotFoundError "edge e9 not found"))
    as (Hget & Hdel & _).
  destruct (http_failure_has_library_cause (lib := lax) self "p9" graph 404
              "node p9 not found"
              (mkGraphitiError NodeNotFoundError "node p9 not found"))
    as (_ & _ & Hepi).
  split.
  - destruct (Hget eq_refl) as (_ & _ & _ & H). exact H.
  - destruct (Hepi eq_refl) as (_ & _ & _ & [H|(ep & H & _)]);
      [exact H | discriminate H].
Defined.

Lemma delete_group_stops_at_failed_edge_witness :
  (exists e,
     result (delete_group (lib := read_only) self "g1" graph) = inl (Library e)) /\
  Forall (fun ev => phase (lib := read_only) ev <= 1)
    (trace (delete_group (lib := read_only) self "g1" graph)).
Proof.
  destruct (delete_group_stops_at_failed_edge (lib := read_only) self "g1" graph
              [e1; e2] graph [edge_get_by_group_ids (lib := read_only) ["g1"]]
              [n1] [p1; p3] e1 eq_refl eq_refl eq_refl)
    as (Hr & _ & Hph).
  - constructor.
  - intros d'. eexists. reflexivity.
  - split; [exact Hr | exact Hph].
Defined.

Lemma delete_group_deletes_everything_witness :
  result (delete_group (lib := lax) self "g1" graph) = inr tt /\
  mutations (trace (delete_group (lib := lax) self "g1" graph))
  = deletions (lib := lax) [e1; e2] [n1] [p1; p3] /\
  driver_after (delete_group (lib := lax) self "g1" graph)
  = mkGraph true []
      [mkItem "n2" "g2"; mkItem "n3" "g2"; mkItem "n4" "g4"]
      [mkItem "p2" "g2"].
Proof.
  destruct (delete_group_deletes_everything (lib := lax) self "g1" graph
              [e1; e2] graph [edge_get_by_group_ids (lib := lax) ["g1"]]
              [n1] [p1; p3] eq_refl eq_refl eq_refl eq_refl)
    as (Hr & _ & Hm & Hd).
  split; [exact Hr|]. split; [exact Hm | now rewrite Hd].
Defined.

Lemma unconfigured_client_is_constructed_witness :
  _create_configured_client Graphiti_init bare
  = Graphiti_init "bolt://neo4j:7687" "neo4j" "secret" None.
Proof.
  exact (unconfigured_client_is_constructed Graphiti_init bare
           eq_refl eq_refl eq_refl eq_refl).
Defined.

Lemma shared_client_is_last_allocated_witness :
  List.length
    (heap (run Graphiti_init Startup.Graphiti_raises
             Startup.OpenAIEmbedder_needs_base_url retried
             (fresh_process Startup.invalid_environment))) = 2 /\
  _shared_client
    (run Graphiti_init Startup.Graphiti_raises
       Startup.OpenAIEmbedder_needs_base_url retried
       (fresh_process Startup.invalid_environment)) = Some 1.
Proof.
  destruct (shared_client_is_last_allocated Graphiti_init
              Startup.Graphiti_raises Startup.OpenAIEmbedder_needs_base_url
              Startup.invalid_environment retried []) as [H _].
  split; [exact (proj1 (H 1 eq_refl)) | reflexivity].
Defined.

Lemma creation_is_logged_once_witness :
  creation_records (run_sample busy (fresh_process (inr settings))) = 1.
Proof.
  destruct (creation_is_logged_once Graphiti_init Startup.Graphiti_raises
              Startup.OpenAIEmbedder_raises (inr settings) busy) as (_ & H).
  exact (proj1 (H 0 eq_refl)).
Defined.

Lemma indices_built_on_singleton_witness :
  _shared_client (run_sample busy (fresh_process (inr settings))) = Some 0.
Proof.
  apply (indices_built_on_singleton Graphiti_init Startup.Graphiti_raises
           Startup.OpenAIEmbedder_raises (inr settings) busy 0).
  vm_compute. do 2 constructor. constructor.
Defined.

Lemma indices_built_once_per_initialize_witness :
  build_calls (run_sample busy (fresh_process (inr settings))) = 2 /\
  build_calls
    (run Graphiti_init Startup.Graphiti_raises
       Startup.OpenAIEmbedder_needs_base_url retried
       (fresh_process Startup.invalid_environment)) <= 1.
Proof.
  split.
  - destruct (indices_built_once_per_initialize Graphiti_init
                Startup.Graphiti_raises Startup.OpenAIEmbedder_raises
                (run_sample [call_get_graphiti other]
                   (fresh_process (inr settings)))
                [environ_changed (inr other);
                 call_initialize_graphiti other None; call_get_shared_client;
                 environ_changed Startup.invalid_environment;
                 call_initialize_graphiti bare
                   (Some (raised "database unavailable"))]) as [_ H].
    apply H. discriminate.
  - destruct (indices_built_once_per_initialize Graphiti_init
                Startup.Graphiti_raises Startup.OpenAIEmbedder_needs_base_url
                (fresh_process Startup.invalid_environment) retried) as [H _].
    exact H.
Defined.

Lemma client_built_from_first_environment_witness :
  heap (run_sample busy
          (_get_shared_client Graphiti_init Startup.Graphiti_raises
             Startup.OpenAIEmbedder_raises (fresh_process (inr settings))).2) !! 0
  = Some (_create_configured_client Graphiti_init settings).
Proof.
  destruct (client_built_from_first_environment Graphiti_init
              Startup.Graphiti_raises Startup.OpenAIEmbedder_raises
              (fresh_process (inr settings)) busy 0 eq_refl eq_refl)
    as (s & Hs & _ & H).
  injection Hs as <-. exact H.
Defined.

Lemma delete_group_of_empty_group_witness :
  result (delete_group (lib := lax) self "g9" graph) = inr tt /\
  driver_after (delete_group (lib := lax) self "g9" graph) = graph.
Proof.
  destruct (delete_group_of_empty_group (lib := lax) self "g9" graph
              (mkGraphitiError GroupsEdgesNotFoundError
                 "no edges found for group ids g9")
              eq_refl eq_refl eq_refl eq_refl) as (Hr & _ & Hd).
  split; [exact Hr | exact Hd].
Defined.

End FurtherOnSample.
